(** * Doxybook2: naming, traversal and dispatch of the documentation tree

    A shallow embedding of [src/Doxybook/Utils.cpp], [src/Doxybook/Generator.cpp]
    and [include/Doxybook/Generator.hpp], with the properties of the
    specification stated over it.

    Conventions of the embedding:
    - [std::string] is [string] (a sequence of 8-bit [ascii] characters);
    - [std::unordered_map<std::string, std::string>] is [gmap string string];
      the code only ever asks such a map for a key, inserts into it, or asks
      whether some entry satisfies a test, so its iteration order is not
      observable;
    - [std::unordered_set<Kind>] (a [Filter]) is [gset Kind];
    - exceptions are the [Throw] outcome of the [Result] type, and behaviour
      the C++ standard leaves undefined is the [Undefined] outcome;
    - the calls of [spdlog] write to the log only and are left out. *)

From Stdlib Require Import Ascii String ZArith List Lia.
From stdpp Require Import base tactics option list strings gmap fin_maps relations pretty sorting.

#[local] Set Warnings "-register-all".

Local Open Scope string_scope.

(** ** Characters and strings *)

Definition nl : string := String (ascii_of_nat 10) EmptyString.

Definition ascii_eqb (a b : ascii) : bool := Ascii.eqb a b.

Definition code (c : ascii) : nat := nat_of_ascii c.

(** The character of a double quote. *)
Definition double_quote : ascii := ascii_of_nat 34.

(** [std::isalnum] in the "C" locale (the program never calls [setlocale]):
    decimal digits and the 52 unaccented letters; no byte above 127 is
    alphanumeric there. *)
Definition isdigit (c : ascii) : bool := (48 <=? code c)%nat && (code c <=? 57)%nat.
Definition isupper (c : ascii) : bool := (65 <=? code c)%nat && (code c <=? 90)%nat.
Definition islower (c : ascii) : bool := (97 <=? code c)%nat && (code c <=? 122)%nat.
Definition isalnum (c : ascii) : bool := isdigit c || isupper c || islower c.

(** [std::string(n, c)]. *)
Fixpoint fill (n : nat) (c : ascii) : string :=
  match n with
  | O => EmptyString
  | S n' => String c (fill n' c)
  end.

(** [s.substr(pos)], which throws [std::out_of_range] when [pos > s.size()]. *)
Definition substr_from (s : string) (pos : nat) : option string :=
  if (String.length s <? pos)%nat then None
  else Some (String.substring pos (String.length s - pos) s).

(** [s.substr(0, n)]: at most the first [n] characters; never throws. *)
Fixpoint substr_to (s : string) (n : nat) : string :=
  match n, s with
  | S n', String c s' => String c (substr_to s' n')
  | _, _ => EmptyString
  end.

(** [s[s.length() - 1]], for a non-empty [s]. *)
Fixpoint last_char (s : string) : option ascii :=
  match s with
  | EmptyString => None
  | String c EmptyString => Some c
  | String _ s' => last_char s'
  end.

(** [a] starts with [b]; on success the rest of [a] is returned. *)
Fixpoint strip_prefix (b a : string) : option string :=
  match b, a with
  | EmptyString, _ => Some a
  | String y b', String x a' => if ascii_eqb x y then strip_prefix b' a' else None
  | String _ _, EmptyString => None
  end.

Module Utils.

(** [replaceAll]: left to right, each occurrence of [from] that starts at
    or after the end of the previous replacement becomes [to]; inserted
    text is not scanned again.  [skip] counts the characters of a matched
    occurrence still to be dropped.  The source loop does not end when
    [from] is empty; every call in the program passes a non-empty [from],
    and the model leaves the string unchanged in that case. *)
Fixpoint replaceAll_go (str from to : string) (skip : nat) : string :=
  match str with
  | EmptyString => EmptyString
  | String c rest =>
      match skip with
      | S k => replaceAll_go rest from to k
      | O =>
          match strip_prefix from str with
          | Some _ => to ++ replaceAll_go rest from to (String.length from - 1)
          | None => String c (replaceAll_go rest from to 0)
          end
      end
  end.

Definition replaceAll (str from to : string) : string :=
  match from with
  | EmptyString => str
  | _ => replaceAll_go str from to 0
  end.

(** *** [stripNamespace] *)

(** The three local variables of the scan: [inside] is an [int] and may
    become negative, [count] is the index of the current character and
    [offset] is [None] for [std::string::npos]. *)
Record ScanState := mkScan { inside : Z; count : nat; offset : option nat }.

Definition scan_step (st : ScanState) (c : ascii) : ScanState :=
  let st' :=
    if ascii_eqb c "(" || ascii_eqb c "[" || ascii_eqb c "<" then
      mkScan (inside st + 1) (count st) (offset st)
    else if ascii_eqb c ")" || ascii_eqb c "]" || ascii_eqb c ">" then
      mkScan (inside st - 1) (count st) (offset st)
    else if ascii_eqb c "." || ascii_eqb c ":" then
      if (inside st =? 0)%Z then mkScan (inside st) (count st) (Some (count st + 1)%nat)
      else st
    else st in
  mkScan (inside st') (S (count st')) (offset st').

Fixpoint scan (st : ScanState) (str : string) : ScanState :=
  match str with
  | EmptyString => st
  | String c rest => scan (scan_step st c) rest
  end.

Definition stripNamespace (str : string) : string :=
  match offset (scan (mkScan 0 0 None) str) with
  | Some off => String.substring off (String.length str - off) str
  | None => str
  end.

(** *** [wikiSafeFileName] *)

(** What one character of the input contributes to [result]. *)
Definition wikiChar (c : ascii) : string :=
  if isalnum c || ascii_eqb c "_" || ascii_eqb c "." || ascii_eqb c "+" then String c EmptyString
  else if ascii_eqb c "-" then String c EmptyString
  else if ascii_eqb c ":" then "%3A"
  else if ascii_eqb c "<" then "%3C"
  else if ascii_eqb c ">" then "%3E"
  else if ascii_eqb c "*" then "%2A"
  else if ascii_eqb c "?" then "%3F"
  else if ascii_eqb c "|" then "%7C"
  else if ascii_eqb c double_quote then "%22"
  else EmptyString.

Fixpoint wikiChars (str : string) : string :=
  match str with
  | EmptyString => EmptyString
  | String c rest => wikiChar c ++ wikiChars rest
  end.

Definition dropLeadingDot (result : string) : string :=
  match result with
  | String c rest => if ascii_eqb c "." then rest else result
  | EmptyString => result
  end.

Definition dropTrailingDot (result : string) : string :=
  match last_char result with
  | Some c => if ascii_eqb c "." then substr_to result (String.length result - 1) else result
  | None => result
  end.

Definition truncate200 (result : string) : string :=
  if (200 <? String.length result)%nat then substr_to result 200 else result.

Definition wikiSafeFileName (str : string) : string :=
  let str := replaceAll str " " "-" in
  let result := wikiChars str in
  truncate200 (dropTrailingDot (dropLeadingDot result)).

(** *** Case, anchors and packages *)

(** [::tolower] and [::toupper] in the "C" locale: only the 26 unaccented
    letters change, and bytes above 127 stay as they are. *)
Definition tolower (c : ascii) : ascii :=
  if isupper c then ascii_of_nat (code c + 32) else c.

Definition toupper (c : ascii) : ascii :=
  if islower c then ascii_of_nat (code c - 32) else c.

(** [std::transform] of a string onto itself, and the range-for loops that
    assign every character. *)
Fixpoint transform (f : ascii -> ascii) (str : string) : string :=
  match str with
  | EmptyString => EmptyString
  | String c rest => String (f c) (transform f rest)
  end.

Definition lang_map : gmap string string :=
  {[ "h" := "cpp"; "c++" := "cpp"; "cs" := "csharp"; "c#" := "csharp" ]}.

Definition normalizeLanguage (language : string) : string :=
  let res := transform tolower language in
  match lang_map !! res with
  | Some mapped => mapped
  | None => res
  end.

Definition replaceNewline (str : string) : string :=
  transform (fun ch => if ascii_eqb ch (ascii_of_nat 10) then " "%char else ch) str.

Definition title (str : string) : string :=
  match str with
  | EmptyString => str
  | String c rest => String (toupper c) rest
  end.

Definition toLower (str : string) : string := transform tolower str.

Definition safeAnchorId (str : string) (replaceUnderscores : bool) : string :=
  let str := replaceAll (toLower str) "::" "" in
  let str := replaceAll str " " "-" in
  if replaceUnderscores then replaceAll str "_" "-" else str.

Definition namespaceToPackage (str : string) : string := replaceAll str "::" ".".

(** *** [escape] *)

(** The first loop: the size of the escaped text. *)
Fixpoint escape_size (str : string) : nat :=
  match str with
  | EmptyString => 0
  | String c rest =>
      (if ascii_eqb c "<" || ascii_eqb c ">" then 4
       else if ascii_eqb c "*" || ascii_eqb c "_" then 5
       else 1) + escape_size rest
  end.

(** The second loop: what one character adds to [ret]. *)
Definition escapeChar (c : ascii) : string :=
  if ascii_eqb c "<" then "&lt;"
  else if ascii_eqb c ">" then "&gt;"
  else if ascii_eqb c "*" then "&#42;"
  else if ascii_eqb c "_" then "&#95;"
  else String c EmptyString.

Fixpoint escapeChars (str : string) : string :=
  match str with
  | EmptyString => EmptyString
  | String c rest => escapeChar c ++ escapeChars rest
  end.

Definition escape (str : string) : string :=
  if (escape_size str =? String.length str)%nat then str else escapeChars str.

(** *** [split] *)

(** [str.find(delim, pos)]: the first index from [pos] on at which [delim]
    starts, [None] for [npos].  [find_go] looks at the text from index [i]
    on. *)
Fixpoint find_go (rest delim : string) (i : nat) : option nat :=
  match strip_prefix delim rest with
  | Some _ => Some i
  | None =>
      match rest with
      | EmptyString => None
      | String _ rest' => find_go rest' delim (S i)
      end
  end.

Definition string_find (str delim : string) (pos : nat) : option nat :=
  if (String.length str <? pos)%nat then None
  else find_go (String.substring pos (String.length str - pos) str) delim pos.

(** The loop of [split], entered with [pos] and [last].  Every round moves
    [pos] forward when [delim] is not empty; with an empty [delim] the loop
    of the source never ends, and the rounds run out ([None]). *)
Fixpoint split_loop (rounds : nat) (str delim : string) (pos : option nat) (last : nat)
    (tokens : list string) : option (list string * nat) :=
  match pos with
  | None => Some (tokens, last)
  | Some pos =>
      match rounds with
      | O => None
      | S rounds' =>
          let tokens := (tokens ++ [String.substring last pos str])%list in
          let pos := (pos + String.length delim)%nat in
          let last := pos in
          split_loop rounds' str delim (string_find str delim pos) last tokens
      end
  end.

Definition split (str delim : string) : option (list string) :=
  match split_loop (S (String.length str)) str delim (string_find str delim 0) 0 [] with
  | Some (tokens, last) =>
      if (last <? String.length str)%nat
      then Some (tokens ++ [String.substring last (String.length str - last) str])%list
      else Some tokens
  | None => None
  end.

End Utils.

(** ** Outcomes of effectful code *)

(** An exception built by the [EXCEPTION] macro: a format string with [{}]
    placeholders and the arguments that fill them. *)
Record Exception := EXCEPTION { fmt : string; args : list string }.

(** Modelled from the spec: the [EXCEPTION] macro lives in
    [ExceptionUtils.hpp], which is not among the sources; the text of the
    error is the format string with each [{}] replaced, left to right, by the
    next argument. *)
Fixpoint format (fmt : string) (args : list string) : string :=
  match fmt with
  | String "{" (String "}" rest) =>
      match args with
      | a :: args' => a ++ format rest args'
      | [] => format rest []
      end
  | String c rest => String c (format rest args)
  | EmptyString => EmptyString
  end.

Definition what (e : Exception) : string := format (fmt e) (args e).

(** [needle] occurs in [hay]. *)
Definition occurs_in (needle hay : string) : Prop :=
  exists before after, hay = before ++ needle ++ after.

Inductive Result (A : Type) : Type :=
  | Ok (a : A)
  | Throw (e : Exception)
  | Undefined.
Arguments Ok {A} a.
Arguments Throw {A} e.
Arguments Undefined {A}.

(** ** The document tree *)

(** The kinds that [Generator.cpp] names; [Enums.hpp] is not among the
    sources, so every other enumerator is [OTHER] with its integer value. *)
Inductive Kind :=
  | STRUCT | INTERFACE | UNION | CLASS | NAMESPACE | MODULE
  | DIR | FILE | PAGE | EXAMPLE | JAVAENUM
  | OTHER (tag : N).

#[global] Instance Kind_eq_dec : EqDecision Kind.
Proof. solve_decision. Defined.

Definition Kind_to_sum (k : Kind) : N + N :=
  match k with
  | STRUCT => inl 0 | INTERFACE => inl 1 | UNION => inl 2 | CLASS => inl 3
  | NAMESPACE => inl 4 | MODULE => inl 5 | DIR => inl 6 | FILE => inl 7
  | PAGE => inl 8 | EXAMPLE => inl 9 | JAVAENUM => inl 10
  | OTHER tag => inr tag
  end%N.

Definition Kind_of_sum (x : N + N) : option Kind :=
  match x with
  | inl 0 => Some STRUCT | inl 1 => Some INTERFACE | inl 2 => Some UNION
  | inl 3 => Some CLASS | inl 4 => Some NAMESPACE | inl 5 => Some MODULE
  | inl 6 => Some DIR | inl 7 => Some FILE | inl 8 => Some PAGE
  | inl 9 => Some EXAMPLE | inl 10 => Some JAVAENUM
  | inl _ => None
  | inr tag => Some (OTHER tag)
  end%N.

#[global] Instance Kind_countable : Countable Kind.
Proof.
  apply (inj_countable Kind_to_sum Kind_of_sum).
  intros []; reflexivity.
Defined.

(** [Type] and [FolderCategory] are enumerations of [Enums.hpp]; the code
    at hand only compares their values and hands them to configuration
    functions, so each value is its underlying integer. *)
Definition Type_ := N.
Definition FolderCategory := N.

Inductive Node : Type := mkNode {
  getRefid : string;
  getKind : Kind;
  getType : Type_;
  getName : string;
  getTitle : string;
  getQualifiedName : string;
  getUrl : string;
  getChildren : list Node
}.

(** Modelled from the spec: [Node::isFileOrDir] is declared in [Node.hpp],
    which is not among the sources; it is the predicate "the node is a file
    or a directory". *)
Definition isFileOrDir (node : Node) : bool :=
  match getKind node with
  | FILE | DIR => true
  | _ => false
  end.

(** Every node of the tree below [root], in pre-order, [root] excluded. *)
Fixpoint descendants (root : Node) : list Node :=
  (fix over (children : list Node) : list Node :=
     match children with
     | [] => []
     | child :: rest => child :: descendants child ++ over rest
     end) (getChildren root).

(** A minimal [nlohmann::json]: the values the code at hand builds. *)
Inductive Json :=
  | JNull
  | JString (s : string)
  | JArray (items : list Json)
  | JObject (fields : list (string * Json)).

(** [data[key] = value] on an object (or on [null], which becomes an
    object).  [nlohmann::json] refuses a key on any other value; the data
    records the code indexes are objects, and the model leaves any other
    value as it is. *)
Fixpoint fields_set (key : string) (value : Json) (fields : list (string * Json)) :=
  match fields with
  | [] => [(key, value)]
  | (k, v) :: rest =>
      if String.eqb k key then (k, value) :: rest else (k, v) :: fields_set key value rest
  end.

Definition json_set (key : string) (value : Json) (data : Json) : Json :=
  match data with
  | JNull => JObject [(key, value)]
  | JObject fields => JObject (fields_set key value fields)
  | other => other
  end.

Definition json_empty (j : Json) : bool :=
  match j with
  | JNull => true
  | JArray [] => true
  | JObject [] => true
  | _ => false
  end.

(** ** The collaborators of [Generator] *)

Record Config := mkConfig {
  templateKindStruct : string;
  templateKindInterface : string;
  templateKindUnion : string;
  templateKindClass : string;
  templateKindNamespace : string;
  templateKindGroup : string;
  templateKindDir : string;
  templateKindFile : string;
  templateKindPage : string;
  templateKindExample : string;
  templateKindJavaEnum : string;
  useWikiNamingConventions : bool;
  useFolders : bool;
  mainPageName : string;
  fileExt : string;
  outputDir : string;
  filesFilter : list string
}.

(** [Doxygen]: the root of the tree and the lookup of a node by its refid,
    which yields a null pointer ([None]) when there is no such node. *)
Record Doxygen := mkDoxygen {
  getIndex : Node;
  find : string -> option Node
}.

Record JsonConverter := mkJsonConverter {
  getAsJson : Node -> Json;
  convert : Node -> Json
}.

(** [Renderer::render] writes a page or throws; [render_error] says which,
    for a template name, a path and a data record. *)
Record Renderer := mkRenderer {
  render_error : string -> string -> Json -> option Exception
}.

(** What the run sees of the file system: whether a [std::ofstream] on a
    path opens, and the content of a file opened by [std::ifstream]
    ([None] when it does not open). *)
Record FileSystem := mkFileSystem {
  opens_for_writing : string -> bool;
  read_file : string -> option string
}.

Record Env := mkEnv {
  env_config : Config;
  env_doxygen : Doxygen;
  env_jsonConverter : JsonConverter;
  env_renderer : Renderer;
  env_fs : FileSystem;
  env_typeToFolderName : Config -> Type_ -> string;
  env_typeToIndexName : Config -> FolderCategory -> string;
  env_typeToIndexTitle : Config -> FolderCategory -> string;
  env_typeToIndexTemplate : Config -> FolderCategory -> string;
  env_Path_join : string -> string -> string;
  env_extension : string -> string;
  env_toStr : Kind -> string
}.

(** What the run leaves behind, oldest first. *)
Inductive Event :=
  | Rendered (templateName path : string) (data : Json)
  | JsonFile (path : string) (data : Json)
  | TextFile (path : string) (text : string).

(** The mutable state: the member [refidToWikiName], the global
    [g_refidToFilename], and the files produced so far. *)
Record State := mkState {
  refidToWikiName : gmap string string;
  g_refidToFilename : gmap string string;
  output : list Event
}.

Definition M (A : Type) : Type := State -> Result (A * State).

Definition ret {A} (a : A) : M A := fun st => Ok (a, st).

Definition bind {A B} (m : M A) (k : A -> M B) : M B := fun st =>
  match m st with
  | Ok (a, st') => k a st'
  | Throw e => Throw e
  | Undefined => Undefined
  end.

Definition throw {A} (e : Exception) : M A := fun _ => Throw e.

Definition emit (ev : Event) : M unit := fun st =>
  Ok (tt, mkState (refidToWikiName st) (g_refidToFilename st) (output st ++ [ev])).

#[global] Instance M_ret : MRet M := @ret.
#[global] Instance M_bind : MBind M := fun A B k m => bind m k.

Definition Filter := gset Kind.

Definition INT_MAX : Z := 2147483647.

(** [std::to_string] of an [int]. *)
Definition to_string (n : Z) : string := pretty n.

Definition string_empty (s : string) : bool :=
  match s with EmptyString => true | _ => false end.

Module Generator.

Record SummarySection := mkSummarySection {
  type : FolderCategory;
  filter : Filter;
  skip : Filter
}.

Section Generator.

(** The members of the [Generator] object that are never assigned after
    construction, the file system, and the functions of [Utils.hpp],
    [Path.hpp], [Enums.hpp] and the standard library that the code calls and
    whose definitions are not among the sources. *)
Variable env : Env.

Local Abbreviation config := (env_config env).
Local Abbreviation doxygen := (env_doxygen env).
Local Abbreviation jsonConverter := (env_jsonConverter env).
Local Abbreviation renderer := (env_renderer env).
Local Abbreviation fs := (env_fs env).
Local Abbreviation typeToFolderName := (env_typeToFolderName env).
Local Abbreviation typeToIndexName := (env_typeToIndexName env).
Local Abbreviation typeToIndexTitle := (env_typeToIndexTitle env).
Local Abbreviation typeToIndexTemplate := (env_typeToIndexTemplate env).
Local Abbreviation Path_join := (env_Path_join env).
Local Abbreviation extension := (env_extension env).
Local Abbreviation toStr := (env_toStr env).

Definition kindToTemplateName (kind : Kind) : Result string :=
  match kind with
  | STRUCT => Ok (templateKindStruct config)
  | INTERFACE => Ok (templateKindInterface config)
  | UNION => Ok (templateKindUnion config)
  | CLASS => Ok (templateKindClass config)
  | NAMESPACE => Ok (templateKindNamespace config)
  | MODULE => Ok (templateKindGroup config)
  | DIR => Ok (templateKindDir config)
  | FILE => Ok (templateKindFile config)
  | PAGE => Ok (templateKindPage config)
  | EXAMPLE => Ok (templateKindExample config)
  | JAVAENUM => Ok (templateKindJavaEnum config)
  | OTHER tag =>
      Throw (EXCEPTION "Unrecognised kind {} please contant the author!" [to_string (Z.of_N tag)])
  end.

Definition shouldInclude (node : Node) : bool :=
  match getKind node with
  | FILE =>
      match filesFilter config with
      | [] => true
      | _ => bool_decide (extension (getName node) ∈ filesFilter config)
      end
  | _ => true
  end.

(** *** The wiki name resolver *)

(** The body of the two scans over [refidToWikiName]: is [wikiName] already
    the name of a node of the same folder? *)
Definition sameFolder (existingRefid : string) (node : Node) : bool :=
  match find doxygen existingRefid with
  | Some existingNode => N.eqb (getType existingNode) (getType node)
  | None => false
  end.

Definition isDuplicate (m : gmap string string) (wikiName : string) (node : Node) : bool :=
  existsb (fun entry : string * string =>
             String.eqb (snd entry) wikiName && sameFolder (fst entry) node)
          (map_to_list m).

(** The loop [while (isDuplicate)].  [suffix] is an [int]: incrementing it
    at [INT_MAX] is undefined.  [fuel] bounds the number of rounds; the
    rounds try pairwise different names, so more than [size m] of them
    cannot all be taken (lemma [probe_enough_fuel]). *)
Fixpoint probe (fuel : nat) (m : gmap string string) (node : Node)
    (baseName : string) (suffix : Z) : Result string :=
  match fuel with
  | O => Undefined
  | S fuel' =>
      if (INT_MAX <=? suffix)%Z then Undefined
      else
        let wikiName := baseName ++ "-" ++ to_string suffix in
        if isDuplicate m wikiName node
        then probe fuel' m node baseName (suffix + 1)
        else Ok wikiName
  end.

(** The name the node gets before the uniqueness check. *)
Definition candidate (node : Node) : string :=
  let nodeName :=
    if isFileOrDir node then getQualifiedName node
    else if negb (string_empty (getTitle node)) then getTitle node
    else getName node in
  let wikiName := Utils.wikiSafeFileName nodeName in
  if string_empty wikiName then Utils.wikiSafeFileName (getRefid node) else wikiName.

Definition uniqueName (m : gmap string string) (node : Node) : Result string :=
  let wikiName := candidate node in
  let baseName := wikiName in
  if isDuplicate m wikiName node
  then probe (S (size m)) m node baseName 1
  else Ok wikiName.

Definition getWikiFileName (node : Node) : M string := fun st =>
  let refid := getRefid node in
  match refidToWikiName st !! refid with
  | Some wikiName =>
      Ok (wikiName,
          mkState (refidToWikiName st) (<[refid := wikiName]> (g_refidToFilename st)) (output st))
  | None =>
      match uniqueName (refidToWikiName st) node with
      | Ok wikiName =>
          Ok (wikiName,
              mkState (<[refid := wikiName]> (refidToWikiName st))
                      (<[refid := wikiName]> (g_refidToFilename st))
                      (output st))
      | Throw e => Throw e
      | Undefined => Undefined
      end
  end.

Definition getWikiFileNameForRefid (st : State) (refid : string) : string :=
  match refidToWikiName st !! refid with
  | Some wikiName => wikiName
  | None => refid
  end.

Definition set_global (refid wikiName : string) : M unit := fun st =>
  Ok (tt, mkState (refidToWikiName st) (<[refid := wikiName]> (g_refidToFilename st)) (output st)).

Fixpoint buildWikiNameMapping (parent : Node) (filter skip : Filter) : M unit :=
  (fix children (cs : list Node) : M unit :=
     match cs with
     | [] => ret tt
     | child :: rest =>
         wikiName ← getWikiFileName child;
         set_global (getRefid child) wikiName;;
         buildWikiNameMapping child filter skip;;
         children rest
     end) (getChildren parent).

(** The constructor: with wiki naming on, every node of the tree is named
    first, and the member map is then copied into the global one. *)
Definition allKinds : Filter :=
  {[ CLASS; STRUCT; UNION; INTERFACE; NAMESPACE; FILE; DIR; PAGE; MODULE; EXAMPLE; JAVAENUM ]}.

Definition copy_to_global : M unit := fun st =>
  Ok (tt, mkState (refidToWikiName st)
                  (refidToWikiName st ∪ g_refidToFilename st)
                  (output st)).

Definition construct : M unit :=
  if useWikiNamingConventions config then
    buildWikiNameMapping (getIndex doxygen) allKinds ∅;;
    copy_to_global
  else ret tt.

(** *** The tree walker *)

Definition lift {A} (r : Result A) : M A := fun st =>
  match r with
  | Ok a => Ok (a, st)
  | Throw e => Throw e
  | Undefined => Undefined
  end.

Definition fileName (child : Node) : M string :=
  if useWikiNamingConventions config then getWikiFileName child
  else ret (getRefid child).

Definition isMainPage (child : Node) : bool :=
  bool_decide (getKind child = PAGE) && String.eqb (getRefid child) (mainPageName config).

Definition render (templateName path : string) (data : Json) : M unit :=
  match render_error renderer templateName path data with
  | Some e => throw e
  | None => emit (Rendered templateName path data)
  end.

Definition printChild (child : Node) : M unit :=
  let data := getAsJson jsonConverter child in
  filename ← fileName child;
  let path :=
    if isMainPage child then filename ++ "." ++ fileExt config
    else if useFolders config then
      Path_join (typeToFolderName config (getType child)) (filename ++ "." ++ fileExt config)
    else filename ++ "." ++ fileExt config in
  templateName ← lift (kindToTemplateName (getKind child));
  render templateName path data.

Fixpoint printRecursively (parent : Node) (filter skip : Filter) : M unit :=
  (fix children (cs : list Node) : M unit :=
     match cs with
     | [] => ret tt
     | child :: rest =>
         (if decide (getKind child ∈ filter) then
            (if bool_decide (getKind child ∉ skip) && shouldInclude child
             then printChild child
             else ret tt);;
            printRecursively child filter skip
          else ret tt);;
         children rest
     end) (getChildren parent).

Definition failed_to_open_for_writing (path : string) : Exception :=
  EXCEPTION "File {} failed to open for writing" [path].

Definition jsonChild (child : Node) : M unit :=
  let data := getAsJson jsonConverter child in
  filename ← fileName child;
  let path := Path_join (outputDir config) (filename ++ ".json") in
  if opens_for_writing fs path then emit (JsonFile path data)
  else throw (failed_to_open_for_writing path).

Fixpoint jsonRecursively (parent : Node) (filter skip : Filter) : M unit :=
  (fix children (cs : list Node) : M unit :=
     match cs with
     | [] => ret tt
     | child :: rest =>
         (if decide (getKind child ∈ filter) then
            (if bool_decide (getKind child ∉ skip) && shouldInclude child
             then jsonChild child
             else ret tt);;
            jsonRecursively child filter skip
          else ret tt);;
         children rest
     end) (getChildren parent).

Definition print (filter skip : Filter) : M unit :=
  printRecursively (getIndex doxygen) filter skip.

Definition json (filter skip : Filter) : M unit :=
  jsonRecursively (getIndex doxygen) filter skip.

(** *** The manifest *)

Definition manifestEntry (child : Node) : Json :=
  let data := json_set "kind" (JString (toStr (getKind child))) JNull in
  let data := json_set "name" (JString (getName child)) data in
  let data :=
    if decide (getKind child = MODULE) then json_set "title" (JString (getTitle child)) data
    else data in
  json_set "url" (JString (getUrl child)) data.

Fixpoint manifestItems (node : Node) : list Json :=
  (fix children (cs : list Node) : list Json :=
     match cs with
     | [] => []
     | child :: rest =>
         if shouldInclude child then
           let data := manifestEntry child in
           let test := manifestItems child in
           (match test with
            | [] => data
            | _ => json_set "children" (JArray test) data
            end) :: children rest
         else children rest
     end) (getChildren node).

Definition manifestRecursively (node : Node) : Json := JArray (manifestItems node).

Definition manifest : M unit :=
  let data := manifestRecursively (getIndex doxygen) in
  let path := Path_join (outputDir config) "manifest.json" in
  if opens_for_writing fs path then emit (JsonFile path data)
  else throw (failed_to_open_for_writing path).

(** *** The index *)

(** [a->getName() < b->getName()] does not hold the other way round: the
    order [std::sort] establishes. *)
Definition name_le (a b : Node * list Json) : Prop :=
  String.ltb (getName (fst b)) (getName (fst a)) = false.

#[global] Instance name_le_dec a b : Decision (name_le a b).
Proof. unfold name_le. apply _. Defined.

(** [std::sort] by name.  The standard leaves the relative order of
    children with equal names open; [sortByName] keeps the order they had:
    an entry is put in front of the first entry whose name is not less than
    its own among the ones that came behind it. *)
Fixpoint insertByName (entry : Node * list Json) (sorted : list (Node * list Json))
    : list (Node * list Json) :=
  match sorted with
  | [] => [entry]
  | next :: rest =>
      if decide (name_le entry next) then entry :: sorted
      else next :: insertByName entry rest
  end.

Fixpoint sortByName (entries : list (Node * list Json)) : list (Node * list Json) :=
  match entries with
  | [] => []
  | entry :: rest => insertByName entry (sortByName rest)
  end.

Definition indexRecord (entry : Node * list Json) : Json :=
  let data := convert jsonConverter (fst entry) in
  match snd entry with
  | [] => data
  | test => json_set "children" (JArray test) data
  end.

(** The recursive call on a child does not depend on the other children and
    has no effect, so it is made here for every child when the child is
    first met, and kept next to the child through the selection and the
    sort; the source makes it only for the selected children, after the
    sort. *)
Fixpoint indexItems (node : Node) (filter skip : Filter) : list Json :=
  let visited := List.map (fun child => (child, indexItems child filter skip)) (getChildren node) in
  let sorted :=
    sortByName
      (List.filter (fun entry : Node * list Json =>
                      bool_decide (getKind (fst entry) ∈ filter) && shouldInclude (fst entry))
                   visited) in
  List.map indexRecord sorted.

Definition buildIndexRecursively (node : Node) (filter skip : Filter) : Json :=
  JArray (indexItems node filter skip).

Definition printIndex (type : FolderCategory) (filter skip : Filter) : M unit :=
  let path := typeToIndexName config type ++ "." ++ fileExt config in
  let data := json_set "children" (buildIndexRecursively (getIndex doxygen) filter skip) JNull in
  let data := json_set "title" (JString (typeToIndexTitle config type)) data in
  let data := json_set "name" (JString (typeToIndexTitle config type)) data in
  render (typeToIndexTemplate config type) path data.

(** *** The summary *)

Definition spaces (n : nat) : string := fill n " ".

Definition NUL : ascii := ascii_of_nat 0.

(** The local [compare] of [summary], on NUL-terminated character arrays:
    it stops at the end of the shorter one and then answers [true]. *)
Fixpoint compare (a b : string) : bool :=
  match a, b with
  | String x a', String y b' =>
      if ascii_eqb x NUL || ascii_eqb y NUL then true
      else if ascii_eqb x y then compare a' b'
      else false
  | _, _ => true
  end.

(** The scan for the placeholder: [rest] is the template from index [i] on.
    The result is [offset] ([None]: the loop ended without [break], so
    [offset] is still [tmpl.size()]) and [indent]. *)
Fixpoint locate (rest : string) (i indent : nat) : option nat * nat :=
  match rest with
  | EmptyString => (None, indent)
  | String c rest' =>
      if compare rest "{{doxygen}}" then (Some i, indent)
      else locate rest' (S i) (if ascii_eqb c " " then S indent else 0)
  end.

(** [ss] is the text written to the string stream so far; the new text of
    the stream is returned.  [indent] is a [size_t] in [summary] and an
    [int] here; it counts spaces of the template and is a [nat] in both. *)
Fixpoint summaryRecursive (ss : string) (indent : nat) (folderName : string)
    (node : Node) (filter skip : Filter) : M string :=
  (fix children (ss : string) (cs : list Node) : M string :=
     match cs with
     | [] => ret ss
     | child :: rest =>
         if isMainPage child then children ss rest
         else if decide (getKind child ∈ filter) then
           ss ← (if bool_decide (getKind child ∉ skip) && shouldInclude child then
                   filename ← fileName child;
                   ret (ss ++ spaces indent ++ "* [" ++ getName child ++ "](" ++ folderName
                           ++ "/" ++ filename ++ ".md)" ++ nl)
                 else ret ss);
           ss ← summaryRecursive ss indent folderName child filter skip;
           children ss rest
         else children ss rest
     end) ss (getChildren node).

Fixpoint summarySections (ss : string) (indent : nat) (sections : list SummarySection) : M string :=
  match sections with
  | [] => ret ss
  | section :: rest =>
      let name := typeToIndexTitle config (type section) in
      let path := typeToIndexName config (type section) ++ "." ++ fileExt config in
      let ss := ss ++ spaces indent ++ "* [" ++ name ++ "](" ++ path ++ ")" ++ nl in
      ss ← summaryRecursive ss (indent + 2) name (getIndex doxygen) (filter section) (skip section);
      summarySections ss indent rest
  end.

Definition placeholder_length : nat := String.length "{{doxygen}}".

(** The text sent to [output]; the three pieces are one [TextFile] event. *)
Definition summary (inputFile outputFile : string) (sections : list SummarySection) : M unit :=
  match read_file fs inputFile with
  | None => throw (EXCEPTION "File {} failed to open for reading" [inputFile])
  | Some tmpl =>
      if negb (opens_for_writing fs outputFile) then throw (failed_to_open_for_writing outputFile)
      else
        let found := locate tmpl 0 0 in
        let offset := default (String.length tmpl) (fst found) in
        let indent := snd found in
        ss ← summarySections "" indent sections;
        match substr_from ss indent with
        | None => throw (EXCEPTION "std::out_of_range" [])
        | Some block =>
            let after :=
              if (offset + placeholder_length <? String.length tmpl)%nat
              then String.substring (offset + placeholder_length)
                     (String.length tmpl - (offset + placeholder_length)) tmpl
              else "" in
            emit (TextFile outputFile (substr_to tmpl offset ++ block ++ after))
        end
  end.

End Generator.

End Generator.

(** * Vocabulary of the properties *)

(** ** File names *)

Fixpoint all_chars (P : ascii -> bool) (s : string) : bool :=
  match s with
  | EmptyString => true
  | String c rest => P c && all_chars P rest
  end.

(** The characters [Utils.wikiSafeFileName] can produce: the ones it keeps, and
    [%] followed by two hexadecimal digits for the ones it encodes. *)
Definition permitted (c : ascii) : bool :=
  isalnum c || ascii_eqb c "_" || ascii_eqb c "." || ascii_eqb c "+"
  || ascii_eqb c "-" || ascii_eqb c "%".

Definition starts_with_dot (s : string) : bool :=
  match s with
  | String c _ => ascii_eqb c "."
  | EmptyString => false
  end.

Definition ends_with_dot (s : string) : bool :=
  match last_char s with
  | Some c => ascii_eqb c "."
  | None => false
  end.

(** A long name whose 200th character is a period. *)
Definition long_dotted_name : string :=
  fill 199 "a" ++ ".b".

(** ** The naming record *)

(** The initial state of a run: nothing named, nothing written. *)
Definition initial : State := mkState ∅ ∅ [].

(** The state after resolving the names of [nodes] one after the other,
    with the names in the same order. *)
Fixpoint resolveAll (env : Env) (nodes : list Node) : M (list string) :=
  match nodes with
  | [] => ret []
  | node :: rest =>
      wikiName ← Generator.getWikiFileName env node;
      names ← resolveAll env rest;
      ret (wikiName :: names)
  end.

(** [doxygen.find] knows the node under its refid, with its category. *)
Definition registered (env : Env) (node : Node) : bool :=
  match find (env_doxygen env) (getRefid node) with
  | Some e => N.eqb (getType e) (getType node)
  | None => false
  end.

(** The category under which the collision check sees an entry of the
    naming record. *)
Definition category (env : Env) (refid : string) : option Type_ :=
  getType <$> find (env_doxygen env) refid.

(** No two entries of the naming record carry the same name in the same
    category, and every entry has a category. *)
Definition unique_names (env : Env) (m : gmap string string) : Prop :=
  (forall r w, m !! r = Some w -> is_Some (category env r)) /\
  (forall r1 r2 w, r1 <> r2 -> m !! r1 = Some w -> m !! r2 = Some w ->
                   category env r1 <> category env r2).

(** The names a run of [resolveAll] returned, if it returned. *)
Definition names_of (r : Result (list string * State)) : option (list string) :=
  match r with
  | Ok (names, _) => Some names
  | _ => None
  end.

(** ** A small tree to run the code on *)

(** A [Doxygen::find] that searches the tree below the root in pre-order. *)
Definition find_in (root : Node) (refid : string) : option Node :=
  List.find (fun node => String.eqb (getRefid node) refid) (descendants root).

Definition example_config (wiki : bool) : Config :=
  mkConfig "kind_struct" "kind_interface" "kind_union" "kind_class" "kind_namespace"
           "kind_group" "kind_dir" "kind_file" "kind_page" "kind_example" "kind_java_enum"
           wiki true "indexpage" "md" "out" [].

Definition example_toStr (kind : Kind) : string :=
  match kind with
  | STRUCT => "struct" | INTERFACE => "interface" | UNION => "union" | CLASS => "class"
  | NAMESPACE => "namespace" | MODULE => "group" | DIR => "dir" | FILE => "file"
  | PAGE => "page" | EXAMPLE => "example" | JAVAENUM => "enum" | OTHER _ => "other"
  end.

(** An environment around a tree: every file opens unless [locked] says
    otherwise, the renderer never fails, the data record of a node is its
    refid, and every category has the folder and the index name [Group]. *)
Definition example_env (wiki : bool) (root : Node) (template : option string)
    (locked : string -> bool) : Env :=
  mkEnv (example_config wiki)
        (mkDoxygen root (find_in root))
        (mkJsonConverter (fun node => JString (getRefid node))
                         (fun node => JObject [("refid", JString (getRefid node))]))
        (mkRenderer (fun _ _ _ => None))
        (mkFileSystem (fun path => negb (locked path))
                      (fun path => if String.eqb path "SUMMARY.md.tmpl" then template else None))
        (fun _ _ => "Group") (fun _ _ => "Group") (fun _ _ => "Group") (fun _ _ => "index")
        (fun a b => a ++ "/" ++ b)
        (fun name => name)
        example_toStr.

Definition nothing_locked (path : string) : bool := false.

(** Two files and a page, all called [Report.md]; the files share the
    category 7, the page has the category 8. *)
Definition report1 : Node := mkNode "report_8md" FILE 7%N "Report.md" "" "Report.md" "Files/report_8md" [].
Definition report2 : Node := mkNode "report_8md_1" FILE 7%N "Report.md" "" "Report.md" "Files/report_8md_1" [].
Definition report_page : Node := mkNode "report_page" PAGE 8%N "report" "Report.md" "" "Pages/report_page" [].
Definition reports_root : Node := mkNode "index" (OTHER 0) 0%N "index" "" "" "" [report1; report2; report_page].
Definition reports_env : Env := example_env true reports_root None nothing_locked.

(** ** The loops over the children, on their own *)

(** The tree walkers recurse on a node and loop over its children inside;
    here are the loops as functions of the list of children, to state what
    a single child contributes. *)
Fixpoint buildWikiNameMappingChildren (env : Env) (cs : list Node) (filter skip : Filter) : M unit :=
  match cs with
  | [] => ret tt
  | child :: rest =>
      wikiName ← Generator.getWikiFileName env child;
      Generator.set_global (getRefid child) wikiName;;
      Generator.buildWikiNameMapping env child filter skip;;
      buildWikiNameMappingChildren env rest filter skip
  end.

Fixpoint printChildren (env : Env) (cs : list Node) (filter skip : Filter) : M unit :=
  match cs with
  | [] => ret tt
  | child :: rest =>
      (if decide (getKind child ∈ filter) then
         (if bool_decide (getKind child ∉ skip) && Generator.shouldInclude env child
          then Generator.printChild env child
          else ret tt);;
         Generator.printRecursively env child filter skip
       else ret tt);;
      printChildren env rest filter skip
  end.

Fixpoint jsonChildren (env : Env) (cs : list Node) (filter skip : Filter) : M unit :=
  match cs with
  | [] => ret tt
  | child :: rest =>
      (if decide (getKind child ∈ filter) then
         (if bool_decide (getKind child ∉ skip) && Generator.shouldInclude env child
          then Generator.jsonChild env child
          else ret tt);;
         Generator.jsonRecursively env child filter skip
       else ret tt);;
      jsonChildren env rest filter skip
  end.

(** The node with other children. *)
Definition with_children (node : Node) (children : list Node) : Node :=
  mkNode (getRefid node) (getKind node) (getType node) (getName node) (getTitle node)
         (getQualifiedName node) (getUrl node) children.

(** The nodes below a list of siblings, in pre-order. *)
Fixpoint descendantsOf (cs : list Node) : list Node :=
  match cs with
  | [] => []
  | child :: rest => child :: descendants child ++ descendantsOf rest
  end.

(** The outcome of a computation without its result value. *)
Definition state_of {A} (r : Result (A * State)) : Result State :=
  match r with
  | Ok (_, st) => Ok st
  | Throw e => Throw e
  | Undefined => Undefined
  end.

(** A class inside a namespace. *)
Definition inner_class : Node :=
  mkNode "classEngine_1_1Asset" CLASS 1%N "Engine::Asset" "" "Engine::Asset" "Classes/classEngine_1_1Asset" [].
Definition outer_namespace : Node :=
  mkNode "namespaceEngine" NAMESPACE 2%N "Engine" "" "Engine" "Namespaces/namespaceEngine" [inner_class].
Definition engine_root : Node :=
  mkNode "index" (OTHER 0) 0%N "index" "" "" "" [outer_namespace].
Definition engine_env : Env := example_env false engine_root None nothing_locked.

(** ** The summary of one class *)

Definition summary_template : string :=
  "before" ++ nl ++ "  {{doxygen}}" ++ nl ++ "after".

(** The text the summary is claimed to be, and the text it is. *)
Definition claimed_summary : string :=
  "before" ++ nl ++ "  * [Group](Group.md)" ++ nl ++ "  * [X](Group/X.md)" ++ nl ++ "after".

Definition actual_summary : string :=
  "before" ++ nl ++ "  * [Group](Group.md)" ++ nl ++ "    * [X](Group/X.md)" ++ nl ++ nl ++ "after".

Definition class_X : Node := mkNode "X" CLASS 1%N "X" "" "X" "Classes/X" [].
Definition summary_root : Node := mkNode "index" (OTHER 0) 0%N "index" "" "" "" [class_X].
Definition summary_env (wiki : bool) : Env :=
  example_env wiki summary_root (Some summary_template) nothing_locked.
Definition class_section : Generator.SummarySection :=
  Generator.mkSummarySection 0%N {[ CLASS ]} ∅.

(** The text of the only file a computation has written. *)
Definition written_text (r : Result (unit * State)) : option string :=
  match r with
  | Ok (_, st) =>
      match output st with
      | [TextFile _ text] => Some text
      | _ => None
      end
  | _ => None
  end.

(** An environment in which no file opens for writing. *)
Definition all_locked (path : string) : bool := true.
Definition locked_env : Env := example_env false engine_root None all_locked.

(** ** Texts and the characters in them *)

(** [needle] starts somewhere in [hay]. *)
Definition occurs (needle hay : string) : bool :=
  match Utils.find_go hay needle 0 with
  | Some _ => true
  | None => false
  end.

Definition is_char (a c : ascii) : bool := ascii_eqb c a.
Definition not_char (a c : ascii) : bool := negb (ascii_eqb c a).

(** The four characters [escape] rewrites. *)
Definition special (c : ascii) : bool :=
  ascii_eqb c "<" || ascii_eqb c ">" || ascii_eqb c "*" || ascii_eqb c "_".

(** The characters [wikiSafeFileName] copies as they are. *)
Definition kept (c : ascii) : bool :=
  isalnum c || ascii_eqb c "_" || ascii_eqb c "." || ascii_eqb c "+" || ascii_eqb c "-".

(** No [.] and no [:] of the text is met at nesting depth 0, the depth
    being [inside] where the text begins. *)
Fixpoint quiet (inside : Z) (str : string) : bool :=
  match str with
  | EmptyString => true
  | String c rest =>
      if ascii_eqb c "(" || ascii_eqb c "[" || ascii_eqb c "<" then quiet (inside + 1) rest
      else if ascii_eqb c ")" || ascii_eqb c "]" || ascii_eqb c ">" then quiet (inside - 1) rest
      else if ascii_eqb c "." || ascii_eqb c ":" then negb (inside =? 0)%Z && quiet inside rest
      else quiet inside rest
  end.

(** A [.] or a [:]: what [stripNamespace] takes for a separator. *)
Definition is_separator (c : ascii) : bool :=
  negb (ascii_eqb c "(" || ascii_eqb c "[" || ascii_eqb c "<")
  && negb (ascii_eqb c ")" || ascii_eqb c "]" || ascii_eqb c ">")
  && (ascii_eqb c "." || ascii_eqb c ":").

(** The text begins with the character [a]. *)
Definition starts_with (a : ascii) (s : string) : bool :=
  match s with
  | String c _ => ascii_eqb c a
  | EmptyString => false
  end.

(** What [replaceAll] does to a character when one character is replaced
    by another. *)
Definition swap (a b c : ascii) : ascii := if ascii_eqb c a then b else c.

(** ** What the walkers reach *)

(** The loop of [summaryRecursive] as a function of the children. *)
Fixpoint summaryChildren (env : Env) (ss : string) (indent : nat) (folderName : string)
    (cs : list Node) (filter skip : Filter) : M string :=
  match cs with
  | [] => ret ss
  | child :: rest =>
      if Generator.isMainPage env child
      then summaryChildren env ss indent folderName rest filter skip
      else if decide (getKind child ∈ filter) then
        ss ← (if bool_decide (getKind child ∉ skip) && Generator.shouldInclude env child then
                filename ← Generator.fileName env child;
                ret (ss ++ Generator.spaces indent ++ "* [" ++ getName child ++ "](" ++ folderName
                        ++ "/" ++ filename ++ ".md)" ++ nl)
              else ret ss);
        ss ← Generator.summaryRecursive env ss indent folderName child filter skip;
        summaryChildren env ss indent folderName rest filter skip
      else summaryChildren env ss indent folderName rest filter skip
  end.

(** The nodes below [parent] that [printRecursively] and [jsonRecursively]
    come to, in the order in which they come to them: the children whose
    kind is in the filter, each followed by what is reached below it. *)
Fixpoint visited (parent : Node) (filter : Filter) : list Node :=
  (fix over (cs : list Node) : list Node :=
     match cs with
     | [] => []
     | child :: rest =>
         ((if decide (getKind child ∈ filter) then child :: visited child filter else [])
          ++ over rest)%list
     end) (getChildren parent).

Fixpoint visitedOf (cs : list Node) (filter : Filter) : list Node :=
  match cs with
  | [] => []
  | child :: rest =>
      ((if decide (getKind child ∈ filter) then child :: visited child filter else [])
       ++ visitedOf rest filter)%list
  end.

(** Of the nodes reached, the ones that are written. *)
Definition dispatched (env : Env) (parent : Node) (filter skip : Filter) : list Node :=
  List.filter (fun node => bool_decide (getKind node ∉ skip) && Generator.shouldInclude env node)
              (visited parent filter).

(** The file [jsonRecursively] writes for a node when the file name is the
    refid. *)
Definition json_file (env : Env) (node : Node) : Event :=
  JsonFile (env_Path_join env (outputDir (env_config env)) (getRefid node ++ ".json"))
           (getAsJson (env_jsonConverter env) node).

(** The global map holds every entry of the member map. *)
Definition mirrored (st : State) : Prop :=
  refidToWikiName st ⊆ g_refidToFilename st.

(** From [st] to [st'] the naming record only grows, stays free of clashes
    if it was, and stays mirrored if it was. *)
Definition grows (env : Env) (st st' : State) : Prop :=
  (unique_names env (refidToWikiName st) -> unique_names env (refidToWikiName st')) /\
  refidToWikiName st ⊆ refidToWikiName st' /\
  (mirrored st -> mirrored st').

(** From [st] to [st'] neither naming map has changed. *)
Definition same_names (st st' : State) : Prop :=
  refidToWikiName st' = refidToWikiName st /\ g_refidToFilename st' = g_refidToFilename st.

(** [data[key]] of an object, if the key is there. *)
Definition json_get (key : string) (data : Json) : option Json :=
  match data with
  | JObject fields => snd <$> List.find (fun field => String.eqb (fst field) key) fields
  | _ => None
  end.

(** The record the manifest has for an included child. *)
Definition manifestRecord (env : Env) (child : Node) : Json :=
  if existsb (Generator.shouldInclude env) (getChildren child)
  then json_set "children" (Generator.manifestRecursively env child) (Generator.manifestEntry env child)
  else Generator.manifestEntry env child.

(** The loop of [manifestRecursively] as a function of the children. *)
Fixpoint manifestChildren (env : Env) (cs : list Node) : list Json :=
  match cs with
  | [] => []
  | child :: rest =>
      if Generator.shouldInclude env child then
        let data := Generator.manifestEntry env child in
        let test := Generator.manifestItems env child in
        (match test with
         | [] => data
         | _ => json_set "children" (JArray test) data
         end) :: manifestChildren env rest
      else manifestChildren env rest
  end.

(** The name of [a] does not come behind the name of [b]. *)
Definition name_ordered (a b : Node) : Prop :=
  String.ltb (getName b) (getName a) = false.

(** A child that gets a record in the index. *)
Definition indexed (env : Env) (filter : Filter) (child : Node) : bool :=
  bool_decide (getKind child ∈ filter) && Generator.shouldInclude env child.


(** ** The JSON pass, file by file *)

(** The state with another list of files written. *)
Definition with_output (out : list Event) (st : State) : State :=
  mkState (refidToWikiName st) (g_refidToFilename st) out.

(** The paths the JSON pass asks the file system for, one for each node of
    the list in its order: each is made of the file name the node gets in
    the state the nodes before it have left. *)
Fixpoint jsonPaths (env : Env) (nodes : list Node) : M (list string) :=
  match nodes with
  | [] => ret []
  | node :: rest =>
      filename ← Generator.fileName env node;
      paths ← jsonPaths env rest;
      ret (env_Path_join env (outputDir (env_config env)) (filename ++ ".json") :: paths)
  end.

(** The files of the nodes under these paths. *)
Definition json_files (env : Env) (nodes : list Node) (paths : list string) : list Event :=
  zip_with (fun node path => JsonFile path (getAsJson (env_jsonConverter env) node)) nodes paths.

(** The block that writes one node, for each node of a list in turn. *)
Fixpoint jsonEach (env : Env) (nodes : list Node) : M unit :=
  match nodes with
  | [] => ret tt
  | node :: rest => Generator.jsonChild env node;; jsonEach env rest
  end.

(** An environment in which the file of the class does not open. *)
Definition class_locked (path : string) : bool := String.eqb path "out/classEngine_1_1Asset.json".
Definition class_locked_env : Env := example_env false engine_root None class_locked.

(** * Properties *)

#[local] Arguments String.append !_ _ : simpl nomatch.

(** ** Strings *)

Lemma length_append (a b : string) :
  String.length (a ++ b) = (String.length a + String.length b)%nat.
Proof. induction a as [|c a IH]; simpl; [reflexivity | now rewrite IH]. Qed.

Lemma append_assoc (a b c : string) : (a ++ b) ++ c = a ++ (b ++ c).
Proof. induction a as [|x a IH]; simpl; [reflexivity | now rewrite IH]. Qed.


Lemma substring_skip (a b : string) (k n : nat) :
  String.substring (String.length a + k) n (a ++ b) = String.substring k n b.
Proof. induction a as [|x a IH]; simpl; [reflexivity | exact IH]. Qed.

Lemma substring_all (s : string) : String.substring 0 (String.length s) s = s.
Proof. induction s as [|x s IH]; simpl; [reflexivity | now rewrite IH]. Qed.

Lemma split_at (s : string) (k : nat) :
  (k <= String.length s)%nat ->
  s = substr_to s k ++ String.substring k (String.length s - k) s.
Proof.
  revert k; induction s as [|x s IH]; intros [|k] Hk; simpl in *; try lia.
  - reflexivity.
  - now rewrite substring_all.
  - f_equal. apply IH. lia.
Qed.

Lemma length_substr_to (s : string) (n : nat) :
  String.length (substr_to s n) = Nat.min n (String.length s).
Proof.
  revert s; induction n as [|n IH]; intros [|x s]; simpl; try reflexivity.
  now rewrite IH.
Qed.

Import Utils.

(** ** [stripNamespace] *)

Example stripNamespace_nested : stripNamespace "A::B<C::D>::E" = "E".
Proof. reflexivity. Qed.

Example stripNamespace_simple : stripNamespace "simple" = "simple".
Proof. reflexivity. Qed.

Example wikiSafeFileName_report : wikiSafeFileName "My Report: v1/2.md" = "My-Report%3A-v12.md".
Proof. reflexivity. Qed.


Lemma scan_app (st : ScanState) (a b : string) : scan st (a ++ b) = scan (scan st a) b.
Proof. revert st; induction a as [|x a IH]; intros st; simpl; [reflexivity | apply IH]. Qed.

Lemma count_scan_step (st : ScanState) (c : ascii) : count (scan_step st c) = S (count st).
Proof. unfold scan_step. repeat case_match; reflexivity. Qed.

Lemma count_scan (st : ScanState) (s : string) :
  count (scan st s) = (count st + String.length s)%nat.
Proof.
  revert st; induction s as [|x s IH]; intros st; simpl; [lia|].
  rewrite IH, count_scan_step. lia.
Qed.

(** Once set, [offset] only moves to the right and never passes [count]. *)
Lemma offset_scan_step (st : ScanState) (c : ascii) (o : nat) :
  offset st = Some o -> (o <= count st)%nat ->
  exists o', offset (scan_step st c) = Some o' /\ (o <= o' <= S (count st))%nat.
Proof.
  intros Ho Hle. unfold scan_step.
  repeat case_match; simpl; eauto with lia.
Qed.

Lemma offset_scan (s : string) (st : ScanState) (o : nat) :
  offset st = Some o -> (o <= count st)%nat ->
  exists o', offset (scan st s) = Some o' /\ (o <= o' <= count st + String.length s)%nat.
Proof.
  revert st o; induction s as [|x s IH]; intros st o Ho Hle; simpl.
  - exists o. split; [assumption | lia].
  - destruct (offset_scan_step st x o Ho Hle) as (o1 & Ho1 & Hb1).
    destruct (IH (scan_step st x) o1 Ho1) as (o2 & Ho2 & Hb2).
    + rewrite count_scan_step. lia.
    + rewrite count_scan_step in Hb2. exists o2. split; [assumption | lia].
Qed.

(** A colon met at nesting depth 0 sets [offset] just behind itself. *)
Lemma scan_colon (st : ScanState) :
  inside st = 0%Z ->
  offset (scan st ":") = Some (S (count st)) /\ count (scan st ":") = S (count st).
Proof.
  intros Hin. simpl. unfold scan_step. simpl. rewrite Hin. simpl.
  split; [f_equal; lia | reflexivity].
Qed.

(** C10: a single colon at nesting depth 0 is a scope separator.  The
    string ["a:b"] is stripped to ["b"]; and whenever a colon is met with
    [inside = 0], nothing up to and including that colon is returned: the
    result is a suffix of what follows the colon. *)
Theorem stripNamespace_single_colon (before after : string) :
  inside (scan (mkScan 0 0 None) before) = 0%Z ->
  stripNamespace "a:b" = "b" /\
  exists dropped, after = dropped ++ stripNamespace (before ++ ":" ++ after).
Proof.
  intros Hin. split; [reflexivity|].
  unfold stripNamespace.
  rewrite !scan_app.
  set (st1 := scan (mkScan 0 0 None) before) in *.
  destruct (scan_colon st1 Hin) as [Hoff Hcnt].
  assert (Hc1 : count st1 = String.length before).
  { unfold st1. rewrite count_scan. reflexivity. }
  destruct (offset_scan after (scan st1 ":") (S (count st1)) Hoff) as (o & Ho & Hb).
  { rewrite Hcnt. lia. }
  rewrite Ho. rewrite Hcnt, Hc1 in Hb.
  exists (substr_to after (o - S (String.length before))).
  replace o with (String.length (before ++ ":") + (o - S (String.length before)))%nat at 2
    by (rewrite length_append; simpl; lia).
  rewrite <- append_assoc, substring_skip.
  rewrite !length_append. simpl String.length.
  replace (String.length before + 1 + String.length after - o)%nat
    with (String.length after - (o - S (String.length before)))%nat by lia.
  apply split_at. lia.
Qed.

(** The colon behind ["A<B>"], whose brackets are closed again when the
    colon is met. *)
Lemma stripNamespace_single_colon_witness :
  inside (scan (mkScan 0 0 None) "A<B>") = 0%Z /\
  stripNamespace "a:b" = "b" /\
  exists dropped, "c.d" = dropped ++ stripNamespace ("A<B>" ++ ":" ++ "c.d").
Proof.
  split; [reflexivity|].
  apply (stripNamespace_single_colon "A<B>" "c.d"). reflexivity.
Defined.

(** ** [wikiSafeFileName] *)

Lemma all_chars_app (P : ascii -> bool) (a b : string) :
  all_chars P (a ++ b) = all_chars P a && all_chars P b.
Proof.
  induction a as [|x a IH]; simpl; [reflexivity|].
  rewrite IH. apply andb_assoc.
Qed.

Lemma all_chars_substr_to (P : ascii -> bool) (s : string) (n : nat) :
  all_chars P s = true -> all_chars P (substr_to s n) = true.
Proof.
  revert s; induction n as [|n IH]; intros [|x s] H; simpl in *; try reflexivity.
  apply andb_true_iff in H as [Hx Hs]. rewrite Hx. simpl. now apply IH.
Qed.

Lemma wikiChar_permitted (c : ascii) : all_chars permitted (wikiChar c) = true.
Proof.
  destruct c as [[] [] [] [] [] [] [] []]; vm_compute; reflexivity.
Qed.

Lemma wikiChars_permitted (s : string) : all_chars permitted (wikiChars s) = true.
Proof.
  induction s as [|c s IH]; simpl; [reflexivity|].
  rewrite all_chars_app, wikiChar_permitted, IH. reflexivity.
Qed.

Lemma dropLeadingDot_permitted (s : string) :
  all_chars permitted s = true -> all_chars permitted (dropLeadingDot s) = true.
Proof.
  destruct s as [|c s]; simpl; [trivial|].
  intros H. destruct (ascii_eqb c "."); [|exact H].
  now apply andb_true_iff in H as [_ H].
Qed.

Lemma dropTrailingDot_permitted (s : string) :
  all_chars permitted s = true -> all_chars permitted (dropTrailingDot s) = true.
Proof.
  intros H. unfold dropTrailingDot.
  destruct (last_char s) as [c|]; [|exact H].
  destruct (ascii_eqb c "."); [|exact H].
  now apply all_chars_substr_to.
Qed.

(** The part of C4 that holds for every input: the result has at most 200
    characters, all of them permitted. *)
Lemma wikiSafeFileName_length (str : string) :
  (String.length (wikiSafeFileName str) <= 200)%nat.
Proof.
  unfold wikiSafeFileName, truncate200.
  destruct (200 <? _)%nat eqn:E.
  - rewrite length_substr_to. lia.
  - apply Nat.ltb_ge in E. exact E.
Qed.

Lemma wikiSafeFileName_permitted (str : string) :
  all_chars permitted (wikiSafeFileName str) = true.
Proof.
  unfold wikiSafeFileName, truncate200.
  pose proof (dropTrailingDot_permitted _
                (dropLeadingDot_permitted _ (wikiChars_permitted (replaceAll str " " "-")))) as H.
  destruct (200 <? _)%nat; [now apply all_chars_substr_to | exact H].
Qed.

(** C4: the result can still begin and end with a period.  Only one period
    is taken off each end, so the second of two survives; and the cut to 200
    characters comes after the trailing period was looked for, so it can
    uncover one. *)
Theorem wikiSafeFileName_period_survives :
  wikiSafeFileName "..a" = ".a" /\
  starts_with_dot (wikiSafeFileName "..a") = true /\
  wikiSafeFileName "a.." = "a." /\
  ends_with_dot (wikiSafeFileName "a..") = true /\
  ends_with_dot (wikiSafeFileName long_dotted_name) = true.
Proof. repeat split; vm_compute; reflexivity. Qed.


(** ** The wiki name resolver *)

Section Resolver.

Variable env : Env.

Lemma isDuplicate_true (m : gmap string string) (w : string) (node : Node) :
  Generator.isDuplicate env m w node = true <->
  exists r, m !! r = Some w /\ category env r = Some (getType node).
Proof.
  unfold Generator.isDuplicate, category, Generator.sameFolder.
  rewrite existsb_exists. split.
  - intros ([r w'] & Hin & Htest). simpl in Htest.
    apply andb_true_iff in Htest as [Hw Hf].
    apply String.eqb_eq in Hw. subst w'.
    exists r. split.
    + apply elem_of_map_to_list. now apply list_elem_of_In.
    + destruct (find (env_doxygen env) r) as [e|]; [|discriminate].
      apply N.eqb_eq in Hf. simpl. now rewrite Hf.
  - intros (r & Hr & Hc). exists (r, w). split.
    + apply list_elem_of_In. now apply elem_of_map_to_list.
    + simpl. rewrite String.eqb_refl. simpl.
      destruct (find (env_doxygen env) r) as [e|]; [|discriminate].
      simpl in Hc. injection Hc as Hc. now apply N.eqb_eq.
Qed.

Lemma isDuplicate_false (m : gmap string string) (w : string) (node : Node) :
  Generator.isDuplicate env m w node = false <->
  forall r, m !! r = Some w -> category env r <> Some (getType node).
Proof.
  split.
  - intros Hd r Hr Hc.
    assert (Generator.isDuplicate env m w node = true) as Ht
      by (apply isDuplicate_true; eauto).
    congruence.
  - intros H. destruct (Generator.isDuplicate env m w node) eqn:E; [|reflexivity].
    apply isDuplicate_true in E as (r & Hr & Hc). now destruct (H r Hr).
Qed.

Lemma probe_free (fuel : nat) (m : gmap string string) (node : Node)
    (baseName : string) (suffix : Z) (w : string) :
  Generator.probe env fuel m node baseName suffix = Ok w ->
  Generator.isDuplicate env m w node = false /\
  exists k, (suffix <= k)%Z /\ w = baseName ++ "-" ++ to_string k.
Proof.
  revert suffix; induction fuel as [|fuel IH]; intros suffix;
    cbn [Generator.probe]; [discriminate|].
  destruct (INT_MAX <=? suffix)%Z; [discriminate|].
  destruct (Generator.isDuplicate env m (baseName ++ "-" ++ to_string suffix) node) eqn:E.
  - intros H. destruct (IH _ H) as (Hf & k & Hk & ->).
    split; [assumption|]. exists k. split; [lia | reflexivity].
  - intros [= <-]. split; [assumption|]. exists suffix. split; [lia | reflexivity].
Qed.

(** Whatever name the resolver settles on is free in the node's category. *)
Lemma uniqueName_free (m : gmap string string) (node : Node) (w : string) :
  Generator.uniqueName env m node = Ok w ->
  Generator.isDuplicate env m w node = false.
Proof.
  unfold Generator.uniqueName.
  destruct (Generator.isDuplicate env m (Generator.candidate node) node) eqn:E.
  - intros H. now apply probe_free in H.
  - now intros [= <-].
Qed.

(** The two ways a call of [getWikiFileName] can return. *)
Lemma getWikiFileName_cases (node : Node) (st st' : State) (w : string) :
  Generator.getWikiFileName env node st = Ok (w, st') ->
  (refidToWikiName st !! getRefid node = Some w /\
   refidToWikiName st' = refidToWikiName st) \/
  (refidToWikiName st !! getRefid node = None /\
   Generator.uniqueName env (refidToWikiName st) node = Ok w /\
   refidToWikiName st' = <[getRefid node := w]> (refidToWikiName st)).
Proof.
  unfold Generator.getWikiFileName.
  destruct (refidToWikiName st !! getRefid node) as [w0|] eqn:E.
  - intros [= <- <-]. left. split; reflexivity.
  - destruct (Generator.uniqueName env (refidToWikiName st) node) as [w1| |] eqn:U;
      try discriminate.
    intros [= <- <-]. right. repeat split; reflexivity.
Qed.

Lemma getWikiFileName_stored (node : Node) (st st' : State) (w : string) :
  Generator.getWikiFileName env node st = Ok (w, st') ->
  refidToWikiName st' !! getRefid node = Some w.
Proof.
  intros H. destruct (getWikiFileName_cases _ _ _ _ H) as [[Hm ->]|(_ & _ & ->)].
  - exact Hm.
  - apply lookup_insert_eq.
Qed.

Lemma getWikiFileName_keeps (node : Node) (st st' : State) (w : string)
    (refid name : string) :
  Generator.getWikiFileName env node st = Ok (w, st') ->
  refidToWikiName st !! refid = Some name ->
  refidToWikiName st' !! refid = Some name.
Proof.
  intros H Hr. destruct (getWikiFileName_cases _ _ _ _ H) as [[_ ->]|(Hn & _ & ->)].
  - exact Hr.
  - rewrite lookup_insert_ne; [exact Hr | congruence].
Qed.

Lemma resolveAll_keeps (nodes : list Node) (st st' : State) (names : list string)
    (refid name : string) :
  resolveAll env nodes st = Ok (names, st') ->
  refidToWikiName st !! refid = Some name ->
  refidToWikiName st' !! refid = Some name.
Proof.
  revert st names; induction nodes as [|node nodes IH]; intros st names; simpl.
  - now intros [= <- <-].
  - unfold mbind, M_bind, bind.
    destruct (Generator.getWikiFileName env node st) as [[w st1]| |] eqn:E1; try discriminate.
    destruct (resolveAll env nodes st1) as [[ns st2]| |] eqn:E2; try discriminate.
    intros [= <- <-] Hr. eapply IH; [exact E2|].
    eapply getWikiFileName_keeps; eassumption.
Qed.

(** C9: the lookup by refid never fails, and a refid without an entry in
    the naming record is returned as it is. *)
Theorem getWikiFileNameForRefid_unknown (st : State) (refid : string) :
  refidToWikiName st !! refid = None ->
  Generator.getWikiFileNameForRefid st refid = refid.
Proof. intros H. unfold Generator.getWikiFileNameForRefid. now rewrite H. Qed.

Lemma getWikiFileNameForRefid_unknown_witness :
  refidToWikiName initial !! "classFoo" = None /\
  Generator.getWikiFileNameForRefid initial "classFoo" = "classFoo".
Proof.
  split; [reflexivity|].
  apply (getWikiFileNameForRefid_unknown initial "classFoo"). reflexivity.
Defined.

(** C7: a node resolved once resolves to the same name again, the second
    call leaving the state as it is; and whatever is resolved afterwards,
    the entry of the node stays what it was. *)
Theorem getWikiFileName_idempotent (node : Node) (st st' : State) (w : string) :
  Generator.getWikiFileName env node st = Ok (w, st') ->
  Generator.getWikiFileName env node st' = Ok (w, st') /\
  forall (later : list Node) (names : list string) (st'' : State),
    resolveAll env later st' = Ok (names, st'') ->
    refidToWikiName st'' !! getRefid node = Some w /\
    exists st3, Generator.getWikiFileName env node st'' = Ok (w, st3).
Proof.
  intros H. pose proof (getWikiFileName_stored _ _ _ _ H) as Hs. split.
  - unfold Generator.getWikiFileName in *.
    destruct (refidToWikiName st !! getRefid node) as [w0|] eqn:E.
    + injection H as <- <-. simpl in *. rewrite E.
      now rewrite insert_insert_eq.
    + destruct (Generator.uniqueName env (refidToWikiName st) node) as [w1| |];
        try discriminate.
      injection H as <- <-. simpl in *. rewrite lookup_insert_eq.
      now rewrite insert_insert_eq.
  - intros later names st'' Hl.
    pose proof (resolveAll_keeps _ _ _ _ _ _ Hl Hs) as Hk.
    split; [exact Hk|].
    unfold Generator.getWikiFileName. rewrite Hk. eauto.
Qed.

End Resolver.


Lemma getWikiFileName_idempotent_witness :
  let st' := mkState {[ "report_8md" := "Report.md" ]} {[ "report_8md" := "Report.md" ]} [] in
  Generator.getWikiFileName reports_env report1 initial = Ok ("Report.md", st') /\
  Generator.getWikiFileName reports_env report1 st' = Ok ("Report.md", st') /\
  forall (later : list Node) (names : list string) (st'' : State),
    resolveAll reports_env later st' = Ok (names, st'') ->
    refidToWikiName st'' !! getRefid report1 = Some "Report.md" /\
    exists st3, Generator.getWikiFileName reports_env report1 st'' = Ok ("Report.md", st3).
Proof.
  intros st'.
  assert (H : Generator.getWikiFileName reports_env report1 initial = Ok ("Report.md", st'))
    by (vm_compute; reflexivity).
  split; [exact H|].
  exact (getWikiFileName_idempotent reports_env report1 initial st' "Report.md" H).
Defined.

(** ** The suffix loop ends *)

Section Probe.

Variable env : Env.

#[local] Instance suffixed_inj (baseName : string) :
  Inj (=) (=) (fun k : Z => baseName ++ "-" ++ to_string k).
Proof.
  intros k1 k2 H.
  apply (inj (String.append baseName)) in H.
  apply (inj (String.append "-")) in H.
  now apply (inj pretty) in H.
Qed.

(** If the loop runs out of rounds without an overflow of [suffix], every
    name it tried is taken. *)
Lemma probe_undefined (fuel : nat) (m : gmap string string) (node : Node)
    (baseName : string) (suffix : Z) :
  (suffix + Z.of_nat fuel <= INT_MAX)%Z ->
  Generator.probe env fuel m node baseName suffix = Undefined ->
  forall k, (suffix <= k < suffix + Z.of_nat fuel)%Z ->
            Generator.isDuplicate env m (baseName ++ "-" ++ to_string k) node = true.
Proof.
  revert suffix; induction fuel as [|fuel IH]; intros suffix Hb;
    cbn [Generator.probe]; [intros _ k Hk; lia|].
  destruct (INT_MAX <=? suffix)%Z eqn:Hmax; [apply Z.leb_le in Hmax; lia|].
  destruct (Generator.isDuplicate env m (baseName ++ "-" ++ to_string suffix) node) eqn:E;
    [|discriminate].
  intros H k Hk.
  destruct (decide (k = suffix)) as [->|Hne]; [exact E|].
  apply (IH (suffix + 1)%Z); [lia | exact H | lia].
Qed.

Lemma probe_never_throws (fuel : nat) (m : gmap string string) (node : Node)
    (baseName : string) (suffix : Z) (e : Exception) :
  Generator.probe env fuel m node baseName suffix <> Throw e.
Proof.
  revert suffix; induction fuel as [|fuel IH]; intros suffix;
    cbn [Generator.probe]; [discriminate|].
  repeat case_match; try discriminate. apply IH.
Qed.

(** [size m + 1] rounds are enough: the names tried are pairwise different,
    so they cannot all be among the [size m] names of the record. *)
Lemma probe_enough_fuel (m : gmap string string) (node : Node) (baseName : string) :
  (Z.of_nat (size m) + 2 <= INT_MAX)%Z ->
  exists w, Generator.probe env (S (size m)) m node baseName 1 = Ok w.
Proof.
  intros Hb.
  destruct (Generator.probe env (S (size m)) m node baseName 1) as [w|e|] eqn:E.
  - eauto.
  - now destruct (probe_never_throws _ _ _ _ _ _ E).
  - exfalso.
    assert (Hb' : (1 + Z.of_nat (S (size m)) <= INT_MAX)%Z) by lia.
    pose proof (probe_undefined _ _ _ _ _ Hb' E) as Hall.
    set (tried := (fun k : Z => baseName ++ "-" ++ to_string k) <$> seqZ 1 (Z.of_nat (S (size m)))).
    assert (Hsub : tried ⊆+ (map_to_list m).*2).
    { apply NoDup_submseteq.
      - apply NoDup_fmap_2; [apply _ | apply NoDup_seqZ].
      - intros w Hw. apply list_elem_of_fmap in Hw as (k & -> & Hk).
        apply elem_of_seqZ in Hk.
        specialize (Hall k Hk).
        apply isDuplicate_true in Hall as (r & Hr & _).
        apply list_elem_of_fmap. exists (r, baseName ++ "-" ++ to_string k).
        split; [reflexivity | now apply elem_of_map_to_list]. }
    apply submseteq_length in Hsub.
    unfold tried in Hsub.
    rewrite !length_fmap, length_seqZ, length_map_to_list in Hsub. lia.
Qed.

(** [getWikiFileName] returns a name for every node, as long as the record
    holds fewer than [INT_MAX - 1] entries. *)
Lemma getWikiFileName_total (node : Node) (st : State) :
  (Z.of_nat (size (refidToWikiName st)) + 2 <= INT_MAX)%Z ->
  exists w st', Generator.getWikiFileName env node st = Ok (w, st').
Proof.
  intros Hb. unfold Generator.getWikiFileName.
  destruct (refidToWikiName st !! getRefid node); [eauto|].
  unfold Generator.uniqueName.
  destruct (Generator.isDuplicate env _ _ node); [|eauto].
  destruct (probe_enough_fuel (refidToWikiName st) node (Generator.candidate node) Hb)
    as [w ->].
  eauto.
Qed.

End Probe.

(** ** Names are unique within a category *)

Section Uniqueness.

Variable env : Env.

Lemma registered_category (node : Node) :
  registered env node = true -> category env (getRefid node) = Some (getType node).
Proof.
  unfold registered, category.
  destruct (find (env_doxygen env) (getRefid node)) as [e|]; [|discriminate].
  intros H. apply N.eqb_eq in H. simpl. now rewrite H.
Qed.

Lemma getWikiFileName_fresh (node : Node) (st : State) (w : string) :
  refidToWikiName st !! getRefid node = None ->
  Generator.uniqueName env (refidToWikiName st) node = Ok w ->
  Generator.getWikiFileName env node st =
    Ok (w, mkState (<[getRefid node := w]> (refidToWikiName st))
                   (<[getRefid node := w]> (g_refidToFilename st))
                   (output st)).
Proof. intros Hn Hu. unfold Generator.getWikiFileName. now rewrite Hn, Hu. Qed.

(** A candidate nobody of the same category holds is taken as it is. *)
Lemma uniqueName_no_suffix (m : gmap string string) (node : Node) :
  (forall r, m !! r = Some (Generator.candidate node) ->
             category env r <> Some (getType node)) ->
  Generator.uniqueName env m node = Ok (Generator.candidate node).
Proof.
  intros H. unfold Generator.uniqueName.
  now rewrite (proj2 (isDuplicate_false env m (Generator.candidate node) node) H).
Qed.

Lemma unique_names_empty : unique_names env ∅.
Proof.
  split.
  - intros r w H. now rewrite lookup_empty in H.
  - intros r1 r2 w _ H. now rewrite lookup_empty in H.
Qed.

(** One resolution keeps the invariant. *)
Lemma unique_names_step (node : Node) (st st' : State) (w : string) :
  registered env node = true ->
  unique_names env (refidToWikiName st) ->
  Generator.getWikiFileName env node st = Ok (w, st') ->
  unique_names env (refidToWikiName st').
Proof.
  intros Hreg [Hcat Huniq] H.
  destruct (getWikiFileName_cases env _ _ _ _ H) as [[_ ->]|(Hnone & Hu & ->)];
    [split; assumption|].
  apply registered_category in Hreg.
  apply uniqueName_free in Hu.
  pose proof (proj1 (isDuplicate_false env _ _ _) Hu) as Hfree.
  split.
  - intros r w' Hr. destruct (decide (getRefid node = r)) as [<-|Hne].
    + rewrite Hreg. eauto.
    + rewrite lookup_insert_ne in Hr by assumption. eauto.
  - intros r1 r2 w' Hne H1 H2.
    destruct (decide (getRefid node = r1)) as [<-|Hn1];
      destruct (decide (getRefid node = r2)) as [<-|Hn2]; try congruence.
    + rewrite lookup_insert_eq in H1. injection H1 as <-.
      rewrite lookup_insert_ne in H2 by assumption.
      rewrite Hreg. intros Heq. now apply (Hfree r2 H2).
    + rewrite lookup_insert_eq in H2. injection H2 as <-.
      rewrite lookup_insert_ne in H1 by assumption.
      rewrite Hreg. now apply Hfree.
    + rewrite lookup_insert_ne in H1, H2 by assumption. eauto.
Qed.

Lemma unique_names_resolveAll (nodes : list Node) (st st' : State) (names : list string) :
  forallb (registered env) nodes = true ->
  unique_names env (refidToWikiName st) ->
  resolveAll env nodes st = Ok (names, st') ->
  unique_names env (refidToWikiName st').
Proof.
  revert st names; induction nodes as [|node nodes IH]; intros st names Hreg Hinv; simpl.
  - now intros [= _ <-].
  - simpl in Hreg. apply andb_true_iff in Hreg as [Hr Hrs].
    unfold mbind, M_bind, bind.
    destruct (Generator.getWikiFileName env node st) as [[w st1]| |] eqn:E1; try discriminate.
    destruct (resolveAll env nodes st1) as [[ns st2]| |] eqn:E2; try discriminate.
    intros [= _ <-]. eapply IH; [exact Hrs | | exact E2].
    eapply unique_names_step; eassumption.
Qed.

(** C3: whatever nodes known to [doxygen.find] a run has resolved since it
    began with an empty naming record, no two entries of the record carry
    the same name in the same category; and a node whose candidate name is
    held only in other categories gets that name with no suffix. *)
Theorem unique_names_invariant (nodes : list Node) (st0 st : State)
    (names : list string) (node : Node) :
  refidToWikiName st0 = ∅ ->
  forallb (registered env) nodes = true ->
  resolveAll env nodes st0 = Ok (names, st) ->
  unique_names env (refidToWikiName st) /\
  (refidToWikiName st !! getRefid node = None ->
   (forall r, refidToWikiName st !! r = Some (Generator.candidate node) ->
              category env r <> Some (getType node)) ->
   exists st', Generator.getWikiFileName env node st = Ok (Generator.candidate node, st')).
Proof.
  intros Hempty Hreg Hrun. split.
  - eapply unique_names_resolveAll; [exact Hreg | | exact Hrun].
    rewrite Hempty. apply unique_names_empty.
  - intros Hnone Hother.
    rewrite (getWikiFileName_fresh node st (Generator.candidate node) Hnone
               (uniqueName_no_suffix _ node Hother)).
    eauto.
Qed.

(** C1, as the code has it: of two files called [Report.md] in one
    category, the first resolved is named [Report.md] and the second
    [Report.md-1]; the suffix goes behind the whole name. *)
Theorem two_reports_resolved (n1 n2 : Node) (st : State) :
  refidToWikiName st = ∅ ->
  getKind n1 = FILE -> getKind n2 = FILE ->
  getQualifiedName n1 = "Report.md" -> getQualifiedName n2 = "Report.md" ->
  getRefid n1 <> getRefid n2 ->
  getType n1 = getType n2 ->
  registered env n1 = true ->
  names_of (resolveAll env [n1; n2] st) = Some ["Report.md"; "Report.md-1"].
Proof.
  intros Hempty Hk1 Hk2 Hq1 Hq2 Hne Hty Hreg.
  assert (Hc1 : Generator.candidate n1 = "Report.md")
    by (unfold Generator.candidate, isFileOrDir; rewrite Hk1, Hq1; reflexivity).
  assert (Hc2 : Generator.candidate n2 = "Report.md")
    by (unfold Generator.candidate, isFileOrDir; rewrite Hk2, Hq2; reflexivity).
  assert (H1 : Generator.uniqueName env (refidToWikiName st) n1 = Ok "Report.md").
  { rewrite <- Hc1. apply uniqueName_no_suffix.
    intros r Hr. now rewrite Hempty, lookup_empty in Hr. }
  set (m1 := <[getRefid n1 := "Report.md"]> (refidToWikiName st)).
  assert (Hdup : Generator.isDuplicate env m1 "Report.md" n2 = true).
  { apply isDuplicate_true. exists (getRefid n1). split.
    - apply lookup_insert_eq.
    - rewrite <- Hty. now apply registered_category. }
  assert (Hfree : Generator.isDuplicate env m1 "Report.md-1" n2 = false).
  { apply isDuplicate_false. intros r Hr. exfalso. unfold m1 in Hr.
    rewrite Hempty in Hr. apply lookup_insert_Some in Hr as [[_ Hr]|[_ Hr]].
    - discriminate.
    - now rewrite lookup_empty in Hr. }
  assert (H2 : Generator.uniqueName env m1 n2 = Ok "Report.md-1").
  { unfold Generator.uniqueName. rewrite Hc2, Hdup.
    cbn [Generator.probe].
    change ("Report.md" ++ "-" ++ to_string 1) with "Report.md-1".
    now rewrite Hfree. }
  cbn [resolveAll]. unfold mbind, M_bind, bind, mret, M_ret, ret.
  rewrite (getWikiFileName_fresh n1 st "Report.md");
    [| now rewrite Hempty, lookup_empty | exact H1].
  rewrite (getWikiFileName_fresh n2 _ "Report.md-1"); [reflexivity | | exact H2].
  cbn [refidToWikiName]. rewrite lookup_insert_ne by assumption.
  now rewrite Hempty, lookup_empty.
Qed.

End Uniqueness.

Lemma two_reports_resolved_witness :
  refidToWikiName initial = ∅ /\
  getKind report1 = FILE /\ getKind report2 = FILE /\
  getQualifiedName report1 = "Report.md" /\ getQualifiedName report2 = "Report.md" /\
  getRefid report1 <> getRefid report2 /\
  getType report1 = getType report2 /\
  registered reports_env report1 = true /\
  names_of (resolveAll reports_env [report1; report2] initial)
    = Some ["Report.md"; "Report.md-1"].
Proof.
  assert (Hne : getRefid report1 <> getRefid report2) by (vm_compute; discriminate).
  repeat (split; [first [reflexivity | exact Hne]|]).
  apply (two_reports_resolved reports_env report1 report2 initial);
    first [reflexivity | exact Hne].
Defined.

(** The claim of C1, on the two files of the example: the second name is
    not [Report-1.md]. *)
Lemma two_reports_not_infix :
  names_of (resolveAll reports_env [report1; report2] initial)
    <> Some ["Report.md"; "Report-1.md"].
Proof. vm_compute. discriminate. Qed.

Lemma unique_names_invariant_witness :
  let st := mkState (<["report_8md_1" := "Report.md-1"]> {[ "report_8md" := "Report.md" ]})
                    (<["report_8md_1" := "Report.md-1"]> {[ "report_8md" := "Report.md" ]}) [] in
  refidToWikiName initial = ∅ /\
  forallb (registered reports_env) [report1; report2] = true /\
  resolveAll reports_env [report1; report2] initial = Ok (["Report.md"; "Report.md-1"], st) /\
  unique_names reports_env (refidToWikiName st) /\
  (refidToWikiName st !! getRefid report_page = None ->
   (forall r, refidToWikiName st !! r = Some (Generator.candidate report_page) ->
              category reports_env r <> Some (getType report_page)) ->
   exists st', Generator.getWikiFileName reports_env report_page st
               = Ok (Generator.candidate report_page, st')).
Proof.
  intros st.
  assert (H : resolveAll reports_env [report1; report2] initial
              = Ok (["Report.md"; "Report.md-1"], st)) by (vm_compute; reflexivity).
  repeat (split; [first [reflexivity | exact H]|]).
  exact (unique_names_invariant reports_env [report1; report2] initial st
           ["Report.md"; "Report.md-1"] report_page eq_refl eq_refl H).
Defined.

(** The page of the example, in another category than the two files, is
    named [Report.md] like the first file. *)
Example page_shares_name :
  names_of (resolveAll reports_env [report1; report2; report_page] initial)
    = Some ["Report.md"; "Report.md-1"; "Report.md"].
Proof. vm_compute. reflexivity. Qed.

(** ** The pre-pass names the tree in pre-order *)

Lemma Node_nested_ind (P : Node -> Prop) :
  (forall node, Forall P (getChildren node) -> P node) -> forall node, P node.
Proof.
  intros step. fix IH 1. intros node. apply step.
  destruct node as [? ? ? ? ? ? ? children]. simpl.
  induction children as [|child rest IHrest]; constructor.
  - apply IH.
  - exact IHrest.
Qed.

Lemma descendants_children (node : Node) :
  descendants node = descendantsOf (getChildren node).
Proof.
  destruct node as [? ? ? ? ? ? ? children]. simpl.
  induction children as [|child rest IH]; simpl; [reflexivity | now rewrite IH].
Qed.

Lemma buildWikiNameMapping_children (env : Env) (parent : Node) (filter skip : Filter) :
  Generator.buildWikiNameMapping env parent filter skip
  = buildWikiNameMappingChildren env (getChildren parent) filter skip.
Proof.
  destruct parent as [? ? ? ? ? ? ? children]. simpl.
  induction children as [|child rest IH]; simpl; [reflexivity | now rewrite IH].
Qed.

Section PrePass.

Variable env : Env.

Lemma resolveAll_cons (node : Node) (rest : list Node) (st : State) :
  state_of (resolveAll env (node :: rest) st)
  = match Generator.getWikiFileName env node st with
    | Ok (_, st1) => state_of (resolveAll env rest st1)
    | Throw e => Throw e
    | Undefined => Undefined
    end.
Proof.
  simpl. unfold mbind, M_bind, bind.
  destruct (Generator.getWikiFileName env node st) as [[w st1]| |]; try reflexivity.
  destruct (resolveAll env rest st1) as [[names st2]| |]; reflexivity.
Qed.

Lemma resolveAll_app (a b : list Node) (st : State) :
  state_of (resolveAll env (a ++ b) st)
  = match state_of (resolveAll env a st) with
    | Ok st1 => state_of (resolveAll env b st1)
    | Throw e => Throw e
    | Undefined => Undefined
    end.
Proof.
  revert st; induction a as [|node a IH]; intros st; [reflexivity|].
  rewrite <- app_comm_cons, !resolveAll_cons.
  destruct (Generator.getWikiFileName env node st) as [[w st1]| |]; try reflexivity.
  apply IH.
Qed.

(** After [getWikiFileName] the global map already holds the name, so the
    assignment that follows it in [buildWikiNameMapping] changes nothing. *)
Lemma getWikiFileName_set_global (node : Node) (st st' : State) (w : string) :
  Generator.getWikiFileName env node st = Ok (w, st') ->
  Generator.set_global (getRefid node) w st' = Ok (tt, st').
Proof.
  unfold Generator.getWikiFileName, Generator.set_global.
  destruct (refidToWikiName st !! getRefid node) as [w0|].
  - intros [= <- <-]. simpl. now rewrite insert_insert_eq.
  - destruct (Generator.uniqueName env (refidToWikiName st) node); try discriminate.
    intros [= <- <-]. simpl. now rewrite insert_insert_eq.
Qed.

(** The pre-pass leaves the state that resolving every node below the
    parent, in pre-order, leaves; the two filters play no part. *)
Lemma buildWikiNameMapping_resolveAll (filter skip : Filter) (parent : Node) (st : State) :
  state_of (Generator.buildWikiNameMapping env parent filter skip st)
  = state_of (resolveAll env (descendants parent) st).
Proof.
  revert st. induction parent as [parent IH] using Node_nested_ind. intros st.
  rewrite buildWikiNameMapping_children, descendants_children.
  revert st. induction IH as [|child rest Hchild _ IHrest]; intros st; [reflexivity|].
  cbn [descendantsOf]. rewrite resolveAll_cons.
  cbn [buildWikiNameMappingChildren]. unfold mbind, M_bind, bind.
  destruct (Generator.getWikiFileName env child st) as [[w st1]| |] eqn:E; try reflexivity.
  rewrite (getWikiFileName_set_global _ _ _ _ E).
  rewrite resolveAll_app, <- (Hchild st1).
  destruct (Generator.buildWikiNameMapping env child filter skip st1) as [[[] st2]| |];
    try reflexivity.
  apply IHrest.
Qed.

End PrePass.

(** ** Trees whose refids are all different *)

Lemma find_unique_key (nodes : list Node) (node : Node) :
  NoDup (getRefid <$> nodes) -> node ∈ nodes ->
  List.find (fun n => String.eqb (getRefid n) (getRefid node)) nodes = Some node.
Proof.
  induction nodes as [|n nodes IH]; intros Hnd Hin; [now apply elem_of_nil in Hin|].
  rewrite fmap_cons in Hnd. apply NoDup_cons in Hnd as [Hfresh Hnd].
  simpl. apply elem_of_cons in Hin as [->|Hin].
  - now rewrite String.eqb_refl.
  - destruct (String.eqb_spec (getRefid n) (getRefid node)) as [Heq|_].
    + exfalso. apply Hfresh. rewrite Heq. now apply list_elem_of_fmap_2.
    + now apply IH.
Qed.

(** When [doxygen.find] searches a tree without repeated refids, it knows
    every node of the tree. *)
Lemma tree_nodes_registered (env : Env) (root node : Node) :
  env_doxygen env = mkDoxygen root (find_in root) ->
  NoDup (getRefid <$> descendants root) ->
  node ∈ descendants root ->
  registered env node = true.
Proof.
  intros Hd Hnd Hin. unfold registered. rewrite Hd. simpl. unfold find_in.
  rewrite (find_unique_key _ _ Hnd Hin). apply N.eqb_refl.
Qed.

(** So the pre-pass over such a tree ends with a naming record without a
    clash inside a category. *)
Lemma prepass_unique_names (env : Env) (root : Node) (filter skip : Filter) (st : State) :
  env_doxygen env = mkDoxygen root (find_in root) ->
  NoDup (getRefid <$> descendants root) ->
  Generator.buildWikiNameMapping env root filter skip initial = Ok (tt, st) ->
  unique_names env (refidToWikiName st).
Proof.
  intros Hd Hnd Hrun.
  pose proof (buildWikiNameMapping_resolveAll env filter skip root initial) as Heq.
  rewrite Hrun in Heq. simpl in Heq.
  destruct (resolveAll env (descendants root) initial) as [[names st']| |] eqn:E;
    simpl in Heq; try discriminate.
  injection Heq as ->.
  apply (unique_names_resolveAll env (descendants root) initial st' names);
    [| apply unique_names_empty | exact E].
  apply forallb_forall. intros node Hin.
  eapply tree_nodes_registered; [exact Hd | exact Hnd | now apply list_elem_of_In].
Qed.

(** ** The tree walker *)

Section Walker.

Variable env : Env.

Lemma printRecursively_children (parent : Node) (filter skip : Filter) :
  Generator.printRecursively env parent filter skip
  = printChildren env (getChildren parent) filter skip.
Proof.
  destruct parent as [? ? ? ? ? ? ? children]. simpl.
  induction children as [|child rest IH]; simpl; [reflexivity | now rewrite IH].
Qed.

Lemma jsonRecursively_children (parent : Node) (filter skip : Filter) :
  Generator.jsonRecursively env parent filter skip
  = jsonChildren env (getChildren parent) filter skip.
Proof.
  destruct parent as [? ? ? ? ? ? ? children]. simpl.
  induction children as [|child rest IH]; simpl; [reflexivity | now rewrite IH].
Qed.

Lemma printChildren_app (a b : list Node) (filter skip : Filter) (st : State) :
  printChildren env (a ++ b) filter skip st
  = (printChildren env a filter skip;; printChildren env b filter skip) st.
Proof.
  revert st; induction a as [|child a IH]; intros st; [reflexivity|].
  simpl. unfold mbind, M_bind, bind in *.
  match goal with |- context [match ?x st with _ => _ end] => destruct (x st) as [[[] st1]| |] end;
    try reflexivity.
  apply IH.
Qed.

Lemma jsonChildren_app (a b : list Node) (filter skip : Filter) (st : State) :
  jsonChildren env (a ++ b) filter skip st
  = (jsonChildren env a filter skip;; jsonChildren env b filter skip) st.
Proof.
  revert st; induction a as [|child a IH]; intros st; [reflexivity|].
  simpl. unfold mbind, M_bind, bind in *.
  match goal with |- context [match ?x st with _ => _ end] => destruct (x st) as [[[] st1]| |] end;
    try reflexivity.
  apply IH.
Qed.

(** A child whose kind the filter lacks adds nothing to either loop. *)
Lemma printChildren_filtered_out (child : Node) (rest : list Node) (filter skip : Filter)
    (st : State) :
  getKind child ∉ filter ->
  printChildren env (child :: rest) filter skip st = printChildren env rest filter skip st.
Proof. intros Hk. simpl. now rewrite decide_False by assumption. Qed.

Lemma jsonChildren_filtered_out (child : Node) (rest : list Node) (filter skip : Filter)
    (st : State) :
  getKind child ∉ filter ->
  jsonChildren env (child :: rest) filter skip st = jsonChildren env rest filter skip st.
Proof. intros Hk. simpl. now rewrite decide_False by assumption. Qed.

(** C2, as the code has it: a child whose kind is not in the filter is
    passed over together with everything below it.  Both walkers do on the
    parent exactly what they do on the parent without that child. *)
Theorem filtered_out_subtree_is_pruned (parent child : Node) (before after : list Node)
    (filter skip : Filter) (st : State) :
  getChildren parent = (before ++ child :: after)%list ->
  getKind child ∉ filter ->
  Generator.printRecursively env parent filter skip st
    = Generator.printRecursively env (with_children parent (before ++ after)) filter skip st /\
  Generator.jsonRecursively env parent filter skip st
    = Generator.jsonRecursively env (with_children parent (before ++ after)) filter skip st.
Proof.
  intros Hch Hk.
  rewrite !printRecursively_children, !jsonRecursively_children, Hch. simpl getChildren.
  rewrite !printChildren_app, !jsonChildren_app.
  unfold mbind, M_bind, bind. split.
  - destruct (printChildren env before filter skip st) as [[[] st1]| |]; try reflexivity.
    now apply printChildren_filtered_out.
  - destruct (jsonChildren env before filter skip st) as [[[] st1]| |]; try reflexivity.
    now apply jsonChildren_filtered_out.
Qed.

(** A child whose kind is in the filter and in the skip set writes nothing
    itself, and its children are walked in its place. *)
Lemma skipped_child_gives_way_to_children (child : Node) (rest : list Node)
    (filter skip : Filter) (st : State) :
  getKind child ∈ filter ->
  getKind child ∈ skip ->
  printChildren env (child :: rest) filter skip st
    = printChildren env (getChildren child ++ rest) filter skip st /\
  jsonChildren env (child :: rest) filter skip st
    = jsonChildren env (getChildren child ++ rest) filter skip st.
Proof.
  intros Hf Hs.
  rewrite printChildren_app, jsonChildren_app.
  cbn [printChildren jsonChildren].
  rewrite !decide_True by assumption.
  rewrite !bool_decide_false by (intros Hn; now apply Hn).
  rewrite printRecursively_children, jsonRecursively_children.
  split; reflexivity.
Qed.

End Walker.

Lemma filtered_out_subtree_is_pruned_witness :
  getChildren engine_root = ([] ++ outer_namespace :: [])%list /\
  (getKind outer_namespace ∉ ({[ CLASS ]} : Filter)) /\
  Generator.printRecursively engine_env engine_root {[ CLASS ]} ∅ initial
    = Generator.printRecursively engine_env (with_children engine_root ([] ++ [])) {[ CLASS ]} ∅ initial /\
  Generator.jsonRecursively engine_env engine_root {[ CLASS ]} ∅ initial
    = Generator.jsonRecursively engine_env (with_children engine_root ([] ++ [])) {[ CLASS ]} ∅ initial.
Proof.
  assert (Hk : getKind outer_namespace ∉ ({[ CLASS ]} : Filter)) by (vm_compute; intuition discriminate).
  split; [reflexivity|]. split; [exact Hk|].
  exact (filtered_out_subtree_is_pruned engine_env engine_root outer_namespace [] []
           {[ CLASS ]} ∅ initial eq_refl Hk).
Defined.

(** The claim of C2, on the class inside the namespace: with only [CLASS]
    in the filter, the class is eligible and its parent is not, and neither
    walker writes anything, while either writes the class once the
    namespace is in the filter too (and skipped). *)
Lemma eligible_descendant_not_reached :
  (getKind inner_class ∈ ({[ CLASS ]} : Filter)) /\
  (inner_class ∈ getChildren outer_namespace) /\
  (getKind outer_namespace ∉ ({[ CLASS ]} : Filter)) /\
  Generator.printRecursively engine_env engine_root {[ CLASS ]} ∅ initial = Ok (tt, initial) /\
  Generator.jsonRecursively engine_env engine_root {[ CLASS ]} ∅ initial = Ok (tt, initial) /\
  state_of (Generator.printRecursively engine_env engine_root {[ CLASS; NAMESPACE ]} {[ NAMESPACE ]} initial)
    = Ok (mkState ∅ ∅ [Rendered "kind_class" "Group/classEngine_1_1Asset.md"
                                (JString "classEngine_1_1Asset")]) /\
  state_of (Generator.jsonRecursively engine_env engine_root {[ CLASS; NAMESPACE ]} {[ NAMESPACE ]} initial)
    = Ok (mkState ∅ ∅ [JsonFile "out/classEngine_1_1Asset.json" (JString "classEngine_1_1Asset")]).
Proof.
  split; [now apply elem_of_singleton|].
  split; [apply list_elem_of_here|].
  split; [vm_compute; intuition discriminate|].
  repeat split; vm_compute; reflexivity.
Qed.

(** ** The index *)

Lemma indexItems_unfold (env : Env) (node : Node) (filter skip : Filter) :
  Generator.indexItems env node filter skip
  = List.map (Generator.indexRecord env)
      (Generator.sortByName
         (List.filter (fun entry : Node * list Json =>
                         bool_decide (getKind (fst entry) ∈ filter)
                         && Generator.shouldInclude env (fst entry))
            (List.map (fun child => (child, Generator.indexItems env child filter skip))
                      (getChildren node)))).
Proof. destruct node; reflexivity. Qed.

(** The index is the same whatever the skip set is: [buildIndexRecursively]
    takes the set, hands it on to its recursive calls, and never looks into
    it. *)
Lemma buildIndexRecursively_ignores_skip (env : Env) (filter skip skip' : Filter) (node : Node) :
  Generator.buildIndexRecursively env node filter skip
  = Generator.buildIndexRecursively env node filter skip'.
Proof.
  unfold Generator.buildIndexRecursively. f_equal.
  induction node as [node IH] using Node_nested_ind.
  rewrite !indexItems_unfold. do 3 f_equal.
  induction IH as [|child rest Hchild _ IHrest]; simpl; [reflexivity|].
  now rewrite Hchild, IHrest.
Qed.

(** C5: the index has a record for a child whose kind is in the skip set.
    With the namespace in both sets, its record is there, the class below
    it attached as its only child. *)
Theorem index_record_for_skipped_kind :
  (getKind outer_namespace ∈ ({[ NAMESPACE ]} : Filter)) /\
  Generator.buildIndexRecursively engine_env engine_root {[ CLASS; NAMESPACE ]} {[ NAMESPACE ]}
  = JArray [JObject [("refid", JString "namespaceEngine");
                     ("children", JArray [JObject [("refid", JString "classEngine_1_1Asset")]])]].
Proof.
  split; [now apply elem_of_singleton|].
  vm_compute. reflexivity.
Qed.

(** ** Errors of the JSON pass *)

Lemma visited_children (parent : Node) (filter : Filter) :
  visited parent filter = visitedOf (getChildren parent) filter.
Proof.
  destruct parent as [? ? ? ? ? ? ? children]. simpl.
  induction children as [|c cs IHc]; [reflexivity|].
  cbn [visitedOf]. rewrite <- IHc. reflexivity.
Qed.

Section JsonErrors.

Variable env : Env.

Lemma failed_to_open_names_path (path : string) :
  occurs_in path (what (Generator.failed_to_open_for_writing path)).
Proof. exists "File ", " failed to open for writing". reflexivity. Qed.

Lemma uniqueName_never_throws (m : gmap string string) (node : Node) (e : Exception) :
  Generator.uniqueName env m node <> Throw e.
Proof.
  unfold Generator.uniqueName.
  destruct (Generator.isDuplicate env m _ node); [apply probe_never_throws | discriminate].
Qed.

Lemma fileName_never_throws (child : Node) (st : State) (e : Exception) :
  Generator.fileName env child st <> Throw e.
Proof.
  unfold Generator.fileName, Generator.getWikiFileName.
  destruct (useWikiNamingConventions (env_config env)); [|discriminate].
  destruct (refidToWikiName st !! getRefid child); [discriminate|].
  destruct (Generator.uniqueName env (refidToWikiName st) child) eqn:E; try discriminate.
  now destruct (uniqueName_never_throws _ _ _ E).
Qed.

(** What [jsonChild] does once the file name is known. *)
Lemma jsonChild_after_fileName (child : Node) (st st1 : State) (filename : string) :
  Generator.fileName env child st = Ok (filename, st1) ->
  let path := env_Path_join env (outputDir (env_config env)) (filename ++ ".json") in
  Generator.jsonChild env child st =
    if opens_for_writing (env_fs env) path
    then emit (JsonFile path (getAsJson (env_jsonConverter env) child)) st1
    else Throw (Generator.failed_to_open_for_writing path).
Proof.
  intros H path. unfold Generator.jsonChild, mbind, M_bind, bind. rewrite H.
  fold path. destruct (opens_for_writing (env_fs env) path); reflexivity.
Qed.

Lemma jsonChild_throws (child : Node) (st : State) (e : Exception) :
  Generator.jsonChild env child st = Throw e ->
  exists path, opens_for_writing (env_fs env) path = false /\
               e = Generator.failed_to_open_for_writing path.
Proof.
  destruct (Generator.fileName env child st) as [[filename st1]|e'|] eqn:F.
  - rewrite (jsonChild_after_fileName _ _ _ _ F).
    destruct (opens_for_writing (env_fs env) _) eqn:O; [discriminate|].
    intros [= <-]. eauto.
  - now destruct (fileName_never_throws _ _ _ F).
  - unfold Generator.jsonChild, mbind, M_bind, bind. rewrite F. discriminate.
Qed.

Lemma jsonRecursively_throws (filter skip : Filter) (parent : Node) (st : State) (e : Exception) :
  Generator.jsonRecursively env parent filter skip st = Throw e ->
  exists path, opens_for_writing (env_fs env) path = false /\
               e = Generator.failed_to_open_for_writing path.
Proof.
  revert st. induction parent as [parent IH] using Node_nested_ind. intros st.
  rewrite jsonRecursively_children.
  revert st. induction IH as [|child rest Hchild _ IHrest]; intros st; simpl; [discriminate|].
  unfold mbind, M_bind, bind, mret, M_ret, ret.
  destruct (decide (getKind child ∈ filter)); [|apply IHrest].
  destruct (bool_decide (getKind child ∉ skip) && Generator.shouldInclude env child).
  - destruct (Generator.jsonChild env child st) as [[[] st1]|e1|] eqn:J; try discriminate.
    + destruct (Generator.jsonRecursively env child filter skip st1) as [[[] st2]|e2|] eqn:R;
        try discriminate; [apply IHrest|].
      intros [= <-]. exact (Hchild _ R).
    + intros [= <-]. exact (jsonChild_throws _ _ _ J).
  - destruct (Generator.jsonRecursively env child filter skip st) as [[[] st2]|e2|] eqn:R;
      try discriminate; [apply IHrest|].
    intros [= <-]. exact (Hchild _ R).
Qed.

Lemma jsonEach_app (a b : list Node) (st : State) :
  jsonEach env (a ++ b) st = (jsonEach env a;; jsonEach env b) st.
Proof.
  revert st; induction a as [|node a IH]; intros st; [reflexivity|].
  simpl. unfold mbind, M_bind, bind in *.
  destruct (Generator.jsonChild env node st) as [[[] st1]| |]; try reflexivity.
  apply IH.
Qed.

Lemma jsonChildren_each (filter skip : Filter) (cs : list Node) :
  Forall (fun node => forall st,
            Generator.jsonRecursively env node filter skip st
            = jsonEach env (dispatched env node filter skip) st) cs ->
  forall st,
    jsonChildren env cs filter skip st
    = jsonEach env (List.filter (fun node => bool_decide (getKind node ∉ skip)
                                              && Generator.shouldInclude env node)
                                (visitedOf cs filter)) st.
Proof.
  intros Hall. induction Hall as [|child rest Hchild _ IHrest]; intros st; [reflexivity|].
  cbn [jsonChildren visitedOf]. unfold mbind, M_bind, bind, mret, M_ret, ret.
  destruct (decide (getKind child ∈ filter)) as [Hin|Hout]; [|apply IHrest].
  rewrite List.filter_app. cbn [List.filter].
  destruct (bool_decide (getKind child ∉ skip) && Generator.shouldInclude env child).
  - rewrite <- app_comm_cons. cbn [jsonEach]. unfold mbind, M_bind, bind.
    destruct (Generator.jsonChild env child st) as [[[] st1]| |]; try reflexivity.
    rewrite jsonEach_app, Hchild. unfold mbind, M_bind, bind, dispatched.
    destruct (jsonEach env _ st1) as [[[] st2]| |]; try reflexivity.
    apply IHrest.
  - rewrite jsonEach_app, Hchild. unfold mbind, M_bind, bind, dispatched.
    destruct (jsonEach env _ st) as [[[] st2]| |]; try reflexivity.
    apply IHrest.
Qed.

(** The pass over a tree is the block that writes a node, done for each
    dispatched node in turn. *)
Lemma jsonRecursively_each (filter skip : Filter) (parent : Node) (st : State) :
  Generator.jsonRecursively env parent filter skip st
  = jsonEach env (dispatched env parent filter skip) st.
Proof.
  revert st. induction parent as [parent IH] using Node_nested_ind. intros st.
  rewrite jsonRecursively_children. unfold dispatched. rewrite visited_children.
  now apply jsonChildren_each.
Qed.

(** The files written so far play no part in the choice of a file name. *)
Lemma fileName_with_output (node : Node) (out : list Event) (st : State) :
  Generator.fileName env node (with_output out st)
  = match Generator.fileName env node st with
    | Ok (filename, st') => Ok (filename, with_output out st')
    | Throw e => Throw e
    | Undefined => Undefined
    end.
Proof.
  unfold Generator.fileName, Generator.getWikiFileName, with_output.
  destruct (useWikiNamingConventions (env_config env)); [|reflexivity].
  simpl. destruct (refidToWikiName st !! getRefid node); [reflexivity|].
  destruct (Generator.uniqueName env (refidToWikiName st) node); reflexivity.
Qed.

Lemma fileName_output (node : Node) (st st' : State) (filename : string) :
  Generator.fileName env node st = Ok (filename, st') -> output st' = output st.
Proof.
  unfold Generator.fileName, Generator.getWikiFileName.
  destruct (useWikiNamingConventions (env_config env)); [|now intros [= _ <-]].
  destruct (refidToWikiName st !! getRefid node); [now intros [= _ <-]|].
  destruct (Generator.uniqueName env (refidToWikiName st) node); try discriminate.
  now intros [= _ <-].
Qed.

Lemma jsonPaths_with_output (nodes : list Node) (out : list Event) (st : State) :
  jsonPaths env nodes (with_output out st)
  = match jsonPaths env nodes st with
    | Ok (paths, st') => Ok (paths, with_output out st')
    | Throw e => Throw e
    | Undefined => Undefined
    end.
Proof.
  revert st; induction nodes as [|node nodes IH]; intros st; [reflexivity|].
  cbn [jsonPaths]. unfold mbind, M_bind, bind, mret, M_ret, ret.
  rewrite fileName_with_output.
  destruct (Generator.fileName env node st) as [[filename st1]| |]; try reflexivity.
  rewrite IH. destruct (jsonPaths env nodes st1) as [[paths st2]| |]; reflexivity.
Qed.

Lemma jsonPaths_cons (node : Node) (nodes : list Node) (st st' : State) (paths : list string) :
  jsonPaths env (node :: nodes) st = Ok (paths, st') ->
  exists filename st1 rest,
    Generator.fileName env node st = Ok (filename, st1) /\
    jsonPaths env nodes st1 = Ok (rest, st') /\
    paths = env_Path_join env (outputDir (env_config env)) (filename ++ ".json") :: rest.
Proof.
  cbn [jsonPaths]. unfold mbind, M_bind, bind, mret, M_ret, ret.
  destruct (Generator.fileName env node st) as [[filename st1]| |]; try discriminate.
  destruct (jsonPaths env nodes st1) as [[rest st2]| |] eqn:E; try discriminate.
  intros [= <- <-]. eauto 6.
Qed.

Lemma jsonChild_opens (node : Node) (st st1 : State) (filename : string) :
  Generator.fileName env node st = Ok (filename, st1) ->
  opens_for_writing (env_fs env)
    (env_Path_join env (outputDir (env_config env)) (filename ++ ".json")) = true ->
  Generator.jsonChild env node st
  = Ok (tt, with_output
              (output st ++ [JsonFile (env_Path_join env (outputDir (env_config env))
                                         (filename ++ ".json"))
                                      (getAsJson (env_jsonConverter env) node)]) st1).
Proof.
  intros F O. rewrite (jsonChild_after_fileName _ _ _ _ F). cbv zeta. rewrite O.
  unfold emit, with_output. now rewrite (fileName_output _ _ _ _ F).
Qed.

(** When every path opens, every file is written. *)
Lemma jsonEach_open (nodes : list Node) (st st' : State) (paths : list string) :
  jsonPaths env nodes st = Ok (paths, st') ->
  Forall (fun path => opens_for_writing (env_fs env) path = true) paths ->
  jsonEach env nodes st
  = Ok (tt, with_output (output st ++ json_files env nodes paths) st').
Proof.
  revert st st' paths; induction nodes as [|node nodes IH]; intros st st' paths.
  - intros [= <- <-] _. simpl. unfold mret, M_ret, ret, with_output.
    destruct st. simpl. now rewrite app_nil_r.
  - intros Hp Hopen.
    apply jsonPaths_cons in Hp as (filename & st1 & rest & F & Hrest & ->).
    apply Forall_cons in Hopen as [O Hopen].
    cbn [jsonEach]. unfold mbind, M_bind, bind.
    rewrite (jsonChild_opens _ _ _ _ F O).
    set (out := (output st ++ _)%list).
    pose proof (jsonPaths_with_output nodes out st1) as Hout. rewrite Hrest in Hout.
    rewrite (IH _ _ _ Hout Hopen). unfold with_output, out, json_files. simpl.
    now rewrite <- app_assoc.
Qed.

(** The first path that does not open ends the pass with its error. *)
Lemma jsonEach_locked (ok : list string) (bad : string) (rest : list string)
    (nodes : list Node) (st st' : State) :
  jsonPaths env nodes st = Ok ((ok ++ bad :: rest)%list, st') ->
  Forall (fun path => opens_for_writing (env_fs env) path = true) ok ->
  opens_for_writing (env_fs env) bad = false ->
  jsonEach env nodes st = Throw (Generator.failed_to_open_for_writing bad).
Proof.
  revert nodes st st'; induction ok as [|path ok IH]; intros nodes st st' Hp Hopen Hbad.
  - destruct nodes as [|node nodes]; [discriminate|].
    apply jsonPaths_cons in Hp as (filename & st1 & tail & F & _ & Heq).
    simpl in Heq. injection Heq as -> _.
    cbn [jsonEach]. unfold mbind, M_bind, bind.
    rewrite (jsonChild_after_fileName _ _ _ _ F). cbv zeta. now rewrite Hbad.
  - destruct nodes as [|node nodes]; [discriminate|].
    apply jsonPaths_cons in Hp as (filename & st1 & tail & F & Htail & Heq).
    simpl in Heq. injection Heq as -> <-.
    apply Forall_cons in Hopen as [O Hopen].
    cbn [jsonEach]. unfold mbind, M_bind, bind.
    rewrite (jsonChild_opens _ _ _ _ F O).
    set (out := (output st ++ _)%list).
    pose proof (jsonPaths_with_output nodes out st1) as Hout. rewrite Htail in Hout.
    exact (IH _ _ _ Hout Hopen Hbad).
Qed.

(** With wiki naming off the paths are known beforehand: the refid of each
    node with [.json] behind it, under the output directory. *)
Lemma jsonPaths_plain (nodes : list Node) (st : State) :
  useWikiNamingConventions (env_config env) = false ->
  jsonPaths env nodes st
  = Ok ((fun node => env_Path_join env (outputDir (env_config env)) (getRefid node ++ ".json"))
          <$> nodes, st).
Proof.
  intros Hw. induction nodes as [|node nodes IH]; [reflexivity|].
  cbn [jsonPaths]. unfold mbind, M_bind, bind, mret, M_ret, ret, Generator.fileName.
  rewrite Hw. cbn [mret M_ret ret]. now rewrite IH.
Qed.

(** C8: in the JSON pass, a file that does not open makes the node's step
    and the manifest throw an error whose text contains the path, and a
    file that opens makes them write it.  The pass over a tree, with
    [paths] the paths of its dispatched nodes in their order, throws the
    error of the first path that does not open; it writes every file when
    every path opens; and it throws nothing but such errors. *)
Theorem json_pass_open_errors (parent child : Node) (filter skip : Filter)
    (st st1 st' : State) (filename : string) (paths : list string) :
  let node_path := env_Path_join env (outputDir (env_config env)) (filename ++ ".json") in
  let manifest_path := env_Path_join env (outputDir (env_config env)) "manifest.json" in
  let opens := opens_for_writing (env_fs env) in
  (Generator.fileName env child st = Ok (filename, st1) ->
   (opens node_path = false ->
    exists e, Generator.jsonChild env child st = Throw e /\ occurs_in node_path (what e)) /\
   (opens node_path = true ->
    exists st2, Generator.jsonChild env child st = Ok (tt, st2))) /\
  (opens manifest_path = false ->
   exists e, Generator.manifest env st = Throw e /\ occurs_in manifest_path (what e)) /\
  (opens manifest_path = true ->
   exists st2, Generator.manifest env st = Ok (tt, st2)) /\
  (forall e, Generator.jsonRecursively env parent filter skip st = Throw e ->
             exists path, opens path = false /\ occurs_in path (what e)) /\
  ((forall path, opens path = true) ->
   forall e, Generator.jsonRecursively env parent filter skip st <> Throw e) /\
  (jsonPaths env (dispatched env parent filter skip) st = Ok (paths, st') ->
   (forall ok bad rest,
      paths = (ok ++ bad :: rest)%list ->
      Forall (fun path => opens path = true) ok ->
      opens bad = false ->
      Generator.jsonRecursively env parent filter skip st
        = Throw (Generator.failed_to_open_for_writing bad) /\
      occurs_in bad (what (Generator.failed_to_open_for_writing bad))) /\
   (Forall (fun path => opens path = true) paths ->
    Generator.jsonRecursively env parent filter skip st
    = Ok (tt, with_output
                (output st ++ json_files env (dispatched env parent filter skip) paths) st'))).
Proof.
  intros node_path manifest_path opens.
  split; [|split; [|split; [|split; [|split]]]].
  - intros H. split.
    + intros O. rewrite (jsonChild_after_fileName _ _ _ _ H).
      fold node_path. fold opens. rewrite O.
      eexists. split; [reflexivity | apply failed_to_open_names_path].
    + intros O. rewrite (jsonChild_after_fileName _ _ _ _ H).
      fold node_path. fold opens. rewrite O. unfold emit. eauto.
  - intros O. unfold Generator.manifest. fold manifest_path. fold opens. rewrite O.
    eexists. split; [reflexivity | apply failed_to_open_names_path].
  - intros O. unfold Generator.manifest. fold manifest_path. fold opens. rewrite O.
    unfold emit. eauto.
  - intros e He. destruct (jsonRecursively_throws _ _ _ _ _ He) as (path & O & ->).
    exists path. split; [exact O | apply failed_to_open_names_path].
  - intros Hall e He. destruct (jsonRecursively_throws _ _ _ _ _ He) as (path & O & _).
    unfold opens in Hall. rewrite Hall in O. discriminate.
  - intros Hp. split.
    + intros ok bad rest -> Hopen Hbad. split; [|apply failed_to_open_names_path].
      rewrite jsonRecursively_each. eapply jsonEach_locked; eassumption.
    + intros Hopen. rewrite jsonRecursively_each. now apply jsonEach_open.
Qed.

End JsonErrors.

(** On the namespace with its class: when only the file of the class does
    not open, the pass throws the error of that file, after the file of the
    namespace; when no file opens, the block of a node and the manifest
    throw; when every file opens, both files are written. *)
Lemma json_pass_open_errors_witness :
  let both : Filter := {[ CLASS; NAMESPACE ]} in
  let paths := ["out/namespaceEngine.json"; "out/classEngine_1_1Asset.json"] in
  jsonPaths class_locked_env (dispatched class_locked_env engine_root both ∅) initial
    = Ok (paths, initial) /\
  Generator.jsonRecursively class_locked_env engine_root both ∅ initial
    = Throw (Generator.failed_to_open_for_writing "out/classEngine_1_1Asset.json") /\
  occurs_in "out/classEngine_1_1Asset.json"
    (what (Generator.failed_to_open_for_writing "out/classEngine_1_1Asset.json")) /\
  Generator.jsonRecursively engine_env engine_root both ∅ initial
    = Ok (tt, with_output
                (output initial
                 ++ json_files engine_env (dispatched engine_env engine_root both ∅) paths)
                initial) /\
  (exists e, Generator.jsonChild locked_env inner_class initial = Throw e /\
             occurs_in "out/classEngine_1_1Asset.json" (what e)) /\
  (exists e, Generator.manifest locked_env initial = Throw e /\
             occurs_in "out/manifest.json" (what e)) /\
  (exists st2, Generator.jsonChild engine_env inner_class initial = Ok (tt, st2)) /\
  (exists st2, Generator.manifest engine_env initial = Ok (tt, st2)).
Proof.
  intros both paths.
  pose proof (json_pass_open_errors class_locked_env engine_root inner_class both ∅
                initial initial initial "classEngine_1_1Asset" paths)
    as (_ & _ & _ & _ & _ & Hpass).
  pose proof (json_pass_open_errors engine_env engine_root inner_class both ∅
                initial initial initial "classEngine_1_1Asset" paths)
    as (Hchild' & _ & Hmanifest' & _ & _ & Hpass').
  pose proof (json_pass_open_errors locked_env engine_root inner_class both ∅
                initial initial initial "classEngine_1_1Asset" paths)
    as (Hchild & Hmanifest & _).
  destruct (Hpass eq_refl) as [Hthrow _].
  destruct (Hthrow ["out/namespaceEngine.json"] "out/classEngine_1_1Asset.json" [] eq_refl)
    as [Ht Ho]; [repeat constructor | reflexivity |].
  destruct (Hpass' eq_refl) as [_ Hok].
  split; [reflexivity|]. split; [exact Ht|]. split; [exact Ho|].
  split; [apply Hok; repeat constructor|].
  split; [exact (proj1 (Hchild eq_refl) eq_refl)|].
  split; [exact (Hmanifest eq_refl)|].
  split; [exact (proj2 (Hchild' eq_refl) eq_refl)|].
  exact (Hmanifest' eq_refl).
Defined.

(** ** The summary *)

Section Summary.

Variable env : Env.

(** C6, as the code has it: the line of the child is indented by two more
    spaces than the line of its category, and the generated block ends with
    a line break of its own, in front of the one that follows the
    placeholder in the template. *)
Theorem summary_of_one_child (X : Node) (section : Generator.SummarySection)
    (inputFile outputFile : string) (st st1 : State) :
  read_file (env_fs env) inputFile = Some summary_template ->
  opens_for_writing (env_fs env) outputFile = true ->
  env_typeToIndexTitle env (env_config env) (Generator.type section) = "Group" ->
  env_typeToIndexName env (env_config env) (Generator.type section) = "Group" ->
  fileExt (env_config env) = "md" ->
  getChildren (getIndex (env_doxygen env)) = [X] ->
  getChildren X = [] ->
  getName X = "X" ->
  Generator.isMainPage env X = false ->
  getKind X ∈ Generator.filter section ->
  getKind X ∉ Generator.skip section ->
  Generator.shouldInclude env X = true ->
  Generator.fileName env X st = Ok ("X", st1) ->
  Generator.summary env inputFile outputFile [section] st
  = emit (TextFile outputFile actual_summary) st1.
Proof.
  intros Hread Hopen Htitle Hname Hext Hroot Hleaf HX Hmain Hin Hskip Hincl Hfile.
  unfold Generator.summary. rewrite Hread, Hopen. cbn [negb].
  change (Generator.locate summary_template 0 0) with (Some 9%nat, 2%nat).
  cbn [fst snd default Generator.summarySections].
  rewrite Htitle, Hname, Hext.
  destruct (getIndex (env_doxygen env)) as [? ? ? ? ? ? ? children]. simpl in Hroot. subst children.
  destruct X as [? ? ? ? ? ? ? grandchildren]. simpl in Hleaf, HX. subst.
  cbn [Generator.summaryRecursive getChildren getKind getName].
  rewrite Hmain. rewrite decide_True by exact Hin.
  rewrite bool_decide_true by exact Hskip. rewrite Hincl. cbn [andb].
  unfold mbind, M_bind, bind, mret, M_ret, ret. rewrite Hfile.
  reflexivity.
Qed.

End Summary.

Lemma summary_of_one_child_witness :
  read_file (env_fs (summary_env false)) "SUMMARY.md.tmpl" = Some summary_template /\
  opens_for_writing (env_fs (summary_env false)) "SUMMARY.md" = true /\
  env_typeToIndexTitle (summary_env false) (env_config (summary_env false))
    (Generator.type class_section) = "Group" /\
  env_typeToIndexName (summary_env false) (env_config (summary_env false))
    (Generator.type class_section) = "Group" /\
  fileExt (env_config (summary_env false)) = "md" /\
  getChildren (getIndex (env_doxygen (summary_env false))) = [class_X] /\
  getChildren class_X = [] /\
  getName class_X = "X" /\
  Generator.isMainPage (summary_env false) class_X = false /\
  (getKind class_X ∈ Generator.filter class_section) /\
  (getKind class_X ∉ Generator.skip class_section) /\
  Generator.shouldInclude (summary_env false) class_X = true /\
  Generator.fileName (summary_env false) class_X initial = Ok ("X", initial) /\
  Generator.summary (summary_env false) "SUMMARY.md.tmpl" "SUMMARY.md" [class_section] initial
  = emit (TextFile "SUMMARY.md" actual_summary) initial.
Proof.
  assert (Hin : getKind class_X ∈ Generator.filter class_section)
    by (change (CLASS ∈ ({[ CLASS ]} : Filter)); now apply elem_of_singleton).
  assert (Hskip : getKind class_X ∉ Generator.skip class_section)
    by (change (CLASS ∉ (∅ : Filter)); apply not_elem_of_empty).
  repeat (split; [first [reflexivity | exact Hin | exact Hskip]|]).
  exact (summary_of_one_child (summary_env false) class_X class_section
           "SUMMARY.md.tmpl" "SUMMARY.md" initial initial
           eq_refl eq_refl eq_refl eq_refl eq_refl eq_refl eq_refl eq_refl eq_refl
           Hin Hskip eq_refl eq_refl).
Defined.

(** The claim of C6, on the tree with the one class [X]: with or without
    wiki naming, the summary written is not the claimed text. *)
Lemma summary_not_as_claimed :
  written_text (Generator.summary (summary_env false) "SUMMARY.md.tmpl" "SUMMARY.md"
                  [class_section] initial) <> Some claimed_summary /\
  written_text (Generator.summary (summary_env true) "SUMMARY.md.tmpl" "SUMMARY.md"
                  [class_section] initial) <> Some claimed_summary.
Proof. split; vm_compute; discriminate. Qed.

(** With wiki naming the text is the same, the class being named [X]. *)
Example summary_with_wiki_names :
  written_text (Generator.summary (summary_env true) "SUMMARY.md.tmpl" "SUMMARY.md"
                  [class_section] initial) = Some actual_summary.
Proof. vm_compute. reflexivity. Qed.

(** * Further properties of [Utils] *)

(** ** [escape] *)

Lemma escape_size_ge (str : string) : (String.length str <= escape_size str)%nat.
Proof. induction str as [|c str IH]; simpl; [lia|]. repeat case_match; lia. Qed.

Lemma escape_size_plain (str : string) :
  escape_size str = String.length str <-> all_chars (fun c => negb (special c)) str = true.
Proof.
  induction str as [|c str IH]; simpl; [tauto|].
  pose proof (escape_size_ge str) as Hge. unfold special.
  destruct (ascii_eqb c "<"), (ascii_eqb c ">"), (ascii_eqb c "*"), (ascii_eqb c "_");
    simpl; try (split; [lia | discriminate]).
  rewrite <- IH. lia.
Qed.

Lemma escapeChar_clean (c : ascii) :
  all_chars (fun c => negb (special c)) (escapeChar c) = true.
Proof. destruct c as [[] [] [] [] [] [] [] []]; vm_compute; reflexivity. Qed.

Lemma escapeChars_clean (str : string) :
  all_chars (fun c => negb (special c)) (escapeChars str) = true.
Proof.
  induction str as [|c str IH]; simpl; [reflexivity|].
  now rewrite all_chars_app, escapeChar_clean, IH.
Qed.

Lemma length_escapeChars (str : string) :
  String.length (escapeChars str) = escape_size str.
Proof.
  induction str as [|c str IH]; simpl; [reflexivity|].
  rewrite length_append, IH. unfold escapeChar.
  destruct (ascii_eqb c "<"), (ascii_eqb c ">"), (ascii_eqb c "*"), (ascii_eqb c "_");
    reflexivity.
Qed.

(** Whatever the input, the escaped text holds none of [<], [>], [*] and
    [_], and it is as long as the first loop of [escape] counted. *)
Theorem escape_clean (str : string) :
  all_chars (fun c => negb (special c)) (escape str) = true /\
  String.length (escape str) = escape_size str.
Proof.
  unfold escape. destruct (escape_size str =? String.length str)%nat eqn:E.
  - apply Nat.eqb_eq in E. split; [now apply escape_size_plain | now rewrite E].
  - split; [apply escapeChars_clean | apply length_escapeChars].
Qed.

(** [escape] returns its input exactly when the input holds none of the
    four characters. *)
Theorem escape_unchanged_iff (str : string) :
  escape str = str <-> all_chars (fun c => negb (special c)) str = true.
Proof.
  rewrite <- escape_size_plain. unfold escape.
  destruct (escape_size str =? String.length str)%nat eqn:E.
  - apply Nat.eqb_eq in E. tauto.
  - apply Nat.eqb_neq in E. split; [|tauto].
    intros H. apply (f_equal String.length) in H.
    now rewrite length_escapeChars in H.
Qed.

(** ** [stripNamespace] beyond the colon *)

Lemma inside_scan_step_quiet (st : ScanState) (c : ascii) (rest : string) :
  quiet (inside st) (String c rest) = true ->
  quiet (inside (scan_step st c)) rest = true /\ offset (scan_step st c) = offset st.
Proof.
  unfold scan_step. simpl.
  destruct (ascii_eqb c "(" || ascii_eqb c "[" || ascii_eqb c "<"); simpl; [tauto|].
  destruct (ascii_eqb c ")" || ascii_eqb c "]" || ascii_eqb c ">"); simpl; [tauto|].
  destruct (ascii_eqb c "." || ascii_eqb c ":"); simpl; [|tauto].
  destruct (inside st =? 0)%Z; simpl; [discriminate | tauto].
Qed.

(** Over a quiet text the scan leaves [offset] alone. *)
Lemma scan_quiet (str : string) (st : ScanState) :
  quiet (inside st) str = true -> offset (scan st str) = offset st.
Proof.
  revert st; induction str as [|c str IH]; intros st H; [reflexivity|].
  apply inside_scan_step_quiet in H as [Hq Ho]. simpl. now rewrite IH.
Qed.

Lemma scan_step_separator (st : ScanState) (c : ascii) :
  is_separator c = true -> inside st = 0%Z ->
  inside (scan_step st c) = 0%Z /\ offset (scan_step st c) = Some (S (count st)).
Proof.
  unfold is_separator, scan_step. intros H Hin.
  destruct (ascii_eqb c "(" || ascii_eqb c "[" || ascii_eqb c "<"); [discriminate|].
  destruct (ascii_eqb c ")" || ascii_eqb c "]" || ascii_eqb c ">"); [discriminate|].
  simpl in H. rewrite H, Hin. simpl. split; [reflexivity | f_equal; lia].
Qed.

Lemma scan_step_not_quiet (st : ScanState) (c : ascii) (rest : string) :
  quiet (inside st) (String c rest) = false ->
  quiet (inside (scan_step st c)) rest = true ->
  is_separator c = true /\ inside st = 0%Z.
Proof.
  unfold scan_step, is_separator. simpl.
  destruct (ascii_eqb c "(" || ascii_eqb c "[" || ascii_eqb c "<"); simpl; [congruence|].
  destruct (ascii_eqb c ")" || ascii_eqb c "]" || ascii_eqb c ">"); simpl; [congruence|].
  destruct (ascii_eqb c "." || ascii_eqb c ":"); simpl; [|congruence].
  destruct (inside st =? 0)%Z eqn:E; simpl; [|congruence].
  apply Z.eqb_eq in E. tauto.
Qed.

(** A text is quiet, or it has a last separator at depth 0, behind which
    it is quiet. *)
Lemma last_separator (str : string) (st : ScanState) :
  quiet (inside st) str = true \/
  exists before c after,
    str = before ++ String c after /\ is_separator c = true /\
    inside (scan st before) = 0%Z /\ quiet 0 after = true.
Proof.
  revert st; induction str as [|c str IH]; intros st; [left; reflexivity|].
  destruct (IH (scan_step st c)) as [Hq|(before & d & after & -> & Hd & Hin & Hq)].
  - destruct (quiet (inside st) (String c str)) eqn:E; [left; reflexivity|].
    destruct (scan_step_not_quiet _ _ _ E Hq) as [Hc Hin].
    right. exists "", c, str. repeat split; try assumption.
    destruct (scan_step_separator st c Hc Hin) as [Hin' _]. now rewrite Hin' in Hq.
  - right. exists (String c before), d, after. repeat split; assumption.
Qed.

Lemma stripNamespace_behind (before after : string) (c : ascii) :
  is_separator c = true ->
  inside (scan (mkScan 0 0 None) before) = 0%Z ->
  quiet 0 after = true ->
  stripNamespace (before ++ String c after) = after.
Proof.
  intros Hc Hin Hq. unfold stripNamespace. rewrite scan_app. simpl scan.
  set (st1 := scan (mkScan 0 0 None) before) in *.
  destruct (scan_step_separator st1 c Hc Hin) as [Hin' Hoff].
  rewrite scan_quiet by (now rewrite Hin').
  rewrite Hoff. unfold st1. rewrite count_scan. simpl count.
  replace (S (0 + String.length before)) with (String.length (before ++ String c "") + 0)%nat
    by (rewrite length_append; simpl; lia).
  change (String c after) with (String c "" ++ after).
  rewrite <- append_assoc, substring_skip, !length_append. simpl String.length.
  replace (String.length before + 1 + String.length after
           - (String.length before + 1 + 0))%nat with (String.length after) by lia.
  apply substring_all.
Qed.

(** [stripNamespace] returns what follows the last [.] or [:] met at depth
    0, whatever stands before it. *)
Theorem stripNamespace_after_last (before after : string) (c : ascii) :
  is_separator c = true ->
  inside (scan (mkScan 0 0 None) before) = 0%Z ->
  quiet 0 after = true ->
  stripNamespace (before ++ String c after) = after.
Proof. apply stripNamespace_behind. Qed.

Lemma stripNamespace_after_last_witness :
  is_separator "." = true /\
  inside (scan (mkScan 0 0 None) "std::vector<a.b>") = 0%Z /\
  quiet 0 "size()" = true /\
  stripNamespace ("std::vector<a.b>" ++ String "." "size()") = "size()".
Proof.
  repeat (split; [reflexivity|]).
  apply (stripNamespace_after_last "std::vector<a.b>" "size()" "."); reflexivity.
Defined.

Lemma stripNamespace_unchanged (str : string) :
  quiet 0 str = true -> stripNamespace str = str.
Proof.
  intros H. unfold stripNamespace.
  now rewrite (scan_quiet str (mkScan 0 0 None) H).
Qed.

(** A text without a [.] or [:] at depth 0 is returned as it is.  As the
    depth is a signed counter, that includes every separator behind a
    closing bracket that has no opening one. *)
Theorem stripNamespace_quiet (str : string) :
  quiet 0 str = true -> stripNamespace str = str.
Proof. apply stripNamespace_unchanged. Qed.

Lemma stripNamespace_quiet_witness :
  quiet 0 "operator)a.b" = true /\ stripNamespace "operator)a.b" = "operator)a.b".
Proof.
  split; [reflexivity|]. apply (stripNamespace_quiet "operator)a.b"). reflexivity.
Defined.

(** What [stripNamespace] returns has no separator at depth 0 left, so
    stripping it again changes nothing. *)
Theorem stripNamespace_idempotent (str : string) :
  quiet 0 (stripNamespace str) = true /\
  stripNamespace (stripNamespace str) = stripNamespace str.
Proof.
  assert (H : quiet 0 (stripNamespace str) = true).
  { destruct (last_separator str (mkScan 0 0 None))
      as [Hq|(before & c & after & -> & Hc & Hin & Hq)].
    - now rewrite stripNamespace_unchanged.
    - now rewrite stripNamespace_behind. }
  split; [exact H | now apply stripNamespace_unchanged].
Qed.

(** ** [replaceAll] and the functions built on it *)

Lemma find_go_shift (hay needle : string) (i : nat) :
  Utils.find_go hay needle (S i) = S <$> Utils.find_go hay needle i.
Proof.
  revert i; induction hay as [|c hay IH]; intros i; simpl.
  - destruct (strip_prefix needle ""); reflexivity.
  - destruct (strip_prefix needle (String c hay)); [reflexivity | apply IH].
Qed.

Lemma occurs_cons (needle rest : string) (c : ascii) :
  occurs needle (String c rest)
  = match strip_prefix needle (String c rest) with Some _ => true | None => false end
    || occurs needle rest.
Proof.
  unfold occurs. simpl.
  destruct (strip_prefix needle (String c rest)); [reflexivity|].
  rewrite find_go_shift. destruct (Utils.find_go rest needle 0); reflexivity.
Qed.

Lemma replaceAll_go_chars (P : ascii -> bool) (from to : string) (str : string) (k : nat) :
  all_chars P str = true -> all_chars P to = true ->
  all_chars P (replaceAll_go str from to k) = true.
Proof.
  intros Hs Ht. revert k; induction str as [|c str IH]; intros k; [reflexivity|].
  simpl in Hs. apply andb_true_iff in Hs as [Hc Hs]. specialize (IH Hs).
  cbn [replaceAll_go]. destruct k as [|k]; [|apply IH].
  destruct (strip_prefix from (String c str)).
  - now rewrite all_chars_app, Ht, IH.
  - simpl. now rewrite Hc, IH.
Qed.

Lemma replaceAll_chars (P : ascii -> bool) (from to : string) (str : string) :
  all_chars P str = true -> all_chars P to = true ->
  all_chars P (replaceAll str from to) = true.
Proof.
  intros Hs Ht. unfold replaceAll. destruct from; [exact Hs|].
  now apply replaceAll_go_chars.
Qed.

Lemma replaceAll_char (a b : ascii) (str : string) :
  replaceAll str (String a "") (String b "") = transform (swap a b) str.
Proof.
  unfold replaceAll. induction str as [|c str IH]; [reflexivity|].
  cbn [replaceAll_go strip_prefix transform]. unfold swap at 1.
  destruct (ascii_eqb c a); simpl; now rewrite IH.
Qed.

Lemma all_chars_transform (P : ascii -> bool) (f : ascii -> ascii) (str : string) :
  (forall c, P (f c) = true) -> all_chars P (transform f str) = true.
Proof. intros H. induction str as [|c str IH]; simpl; [reflexivity | now rewrite H, IH]. Qed.

Lemma transform_fixed (P : ascii -> bool) (f : ascii -> ascii) (str : string) :
  (forall c, P c = true -> f c = c) -> all_chars P str = true -> transform f str = str.
Proof.
  intros H. induction str as [|c str IH]; simpl; [reflexivity|].
  intros Hs. apply andb_true_iff in Hs as [Hc Hs]. now rewrite (H c Hc), IH.
Qed.

Lemma ascii_eqb_eq (a b : ascii) : ascii_eqb a b = true <-> a = b.
Proof. apply Ascii.eqb_eq. Qed.

Lemma swap_not_source (a b : ascii) :
  ascii_eqb b a = false -> forall c, not_char a (swap a b c) = true.
Proof.
  intros Hab c. unfold swap, not_char.
  destruct (ascii_eqb c a) eqn:E; [now rewrite Hab | now rewrite E].
Qed.

Lemma swap_keeps_colon (a b : ascii) :
  ascii_eqb a ":" = false -> ascii_eqb b ":" = false ->
  forall c, ascii_eqb (swap a b c) ":" = ascii_eqb c ":".
Proof.
  intros Ha Hb c. unfold swap. destruct (ascii_eqb c a) eqn:E; [|reflexivity].
  apply ascii_eqb_eq in E. subst c. now rewrite Ha, Hb.
Qed.

(** A text in which [from] does not occur is returned as it is. *)
Lemma replaceAll_without (str from to : string) :
  occurs from str = false -> replaceAll str from to = str.
Proof.
  unfold replaceAll. destruct from as [|f from]; [reflexivity|].
  induction str as [|c str IH]; [reflexivity|].
  rewrite occurs_cons. intros H. apply orb_false_iff in H as [Hp Ho].
  cbn [replaceAll_go]. destruct (strip_prefix (String f from) (String c str)); [discriminate|].
  now rewrite IH.
Qed.

Lemma occurs_colons_cons (c : ascii) (rest : string) :
  occurs "::" (String c rest) = (ascii_eqb c ":" && starts_with ":" rest) || occurs "::" rest.
Proof.
  rewrite occurs_cons. f_equal. simpl. unfold ascii_eqb.
  destruct (Ascii.eqb c ":"); [|reflexivity].
  destruct rest as [|d rest]; [reflexivity|]. simpl. unfold ascii_eqb.
  destruct (Ascii.eqb d ":"); reflexivity.
Qed.

Lemma occurs_colons_app (a b : string) :
  all_chars (not_char ":") a = true ->
  occurs "::" (a ++ b) = occurs "::" b /\ starts_with ":" (a ++ b) = (string_empty a && starts_with ":" b).
Proof.
  induction a as [|c a IH]; intros Ha; [split; reflexivity|].
  simpl in Ha. apply andb_true_iff in Ha as [Hc Ha]. destruct (IH Ha) as [IH1 IH2].
  unfold not_char in Hc. apply negb_true_iff in Hc.
  change (String c a ++ b) with (String c (a ++ b)).
  rewrite occurs_colons_cons, Hc, IH1. split; [reflexivity | simpl; exact Hc].
Qed.

Lemma occurs_colons_transform (f : ascii -> ascii) (str : string) :
  (forall c, ascii_eqb (f c) ":" = ascii_eqb c ":") ->
  occurs "::" (transform f str) = occurs "::" str.
Proof.
  intros H. induction str as [|c str IH]; [reflexivity|].
  cbn [transform]. rewrite !occurs_colons_cons, IH, H. do 2 f_equal.
  destruct str; simpl; [reflexivity | apply H].
Qed.

(** Replacing [::] from left to right by a text without a colon leaves no
    [::] behind: of a run of colons at most the last one stays. *)
Lemma replaceAll_go_colons (to : string) :
  all_chars (not_char ":") to = true ->
  forall (n : nat) (str : string), (String.length str <= n)%nat ->
    occurs "::" (replaceAll_go str "::" to 0) = false /\
    (starts_with ":" (replaceAll_go str "::" to 0) = true -> starts_with ":" str = true).
Proof.
  intros Hto. induction n as [|n IH]; intros [|c str] Hlen; simpl in Hlen;
    try (split; [reflexivity | discriminate]); try lia.
  cbn [replaceAll_go strip_prefix]. unfold ascii_eqb.
  destruct (Ascii.eqb c ":") eqn:Ec.
  - destruct str as [|d str].
    + cbn [replaceAll_go]. rewrite occurs_colons_cons. simpl. rewrite andb_false_r.
      split; [reflexivity | tauto].
    + destruct (Ascii.eqb d ":") eqn:Ed.
      * cbn [replaceAll_go String.length Nat.sub].
        destruct (IH str ltac:(simpl in Hlen; lia)) as [IH1 IH2].
        destruct (occurs_colons_app to (replaceAll_go str "::" to 0) Hto) as [H1 H2].
        rewrite H1. split; [exact IH1 | intros _; simpl; exact Ec].
      * destruct (IH (String d str) ltac:(lia)) as [IH1 IH2].
        rewrite occurs_colons_cons, IH1.
        destruct (starts_with ":" (replaceAll_go (String d str) "::" to 0)) eqn:Es.
        -- specialize (IH2 eq_refl). simpl in IH2. unfold ascii_eqb in IH2. congruence.
        -- rewrite andb_false_r. split; [reflexivity | intros _; simpl; exact Ec].
  - destruct (IH str ltac:(lia)) as [IH1 IH2].
    rewrite occurs_colons_cons, IH1. cbn [starts_with]. unfold ascii_eqb. rewrite Ec.
    split; [reflexivity | discriminate].
Qed.

Lemma replaceAll_colons (str to : string) :
  all_chars (not_char ":") to = true -> occurs "::" (replaceAll str "::" to) = false.
Proof.
  intros Hto. unfold replaceAll.
  now destruct (replaceAll_go_colons to Hto (String.length str) str (le_n _)).
Qed.

(** In a text without the pattern nothing is replaced, and a single
    character replaced by another one is replaced everywhere, every other
    character staying where it is. *)
Theorem replaceAll_absent_or_char (str from to : string) (a b : ascii) :
  (occurs from str = false -> replaceAll str from to = str) /\
  replaceAll str (String a "") (String b "") = transform (swap a b) str /\
  String.length (replaceAll str (String a "") (String b "")) = String.length str.
Proof.
  split; [apply replaceAll_without|].
  rewrite replaceAll_char. split; [reflexivity|].
  induction str as [|c str IH]; simpl; [reflexivity | now rewrite IH].
Qed.

Lemma tolower_not_upper (c : ascii) : negb (isupper (tolower c)) = true.
Proof. destruct c as [[] [] [] [] [] [] [] []]; vm_compute; reflexivity. Qed.

Lemma tolower_idempotent (c : ascii) : tolower (tolower c) = tolower c.
Proof. destruct c as [[] [] [] [] [] [] [] []]; vm_compute; reflexivity. Qed.

Lemma transform_tolower_idempotent (str : string) :
  transform tolower (transform tolower str) = transform tolower str.
Proof.
  induction str as [|c str IH]; simpl; [reflexivity|].
  now rewrite tolower_idempotent, IH.
Qed.

(** An anchor id has no capital letter, no space and no [::] in it, and no
    underscore either when underscores are to be replaced. *)
Theorem safeAnchorId_shape (str : string) (replaceUnderscores : bool) :
  all_chars (fun c => negb (isupper c)) (safeAnchorId str replaceUnderscores) = true /\
  all_chars (not_char " ") (safeAnchorId str replaceUnderscores) = true /\
  occurs "::" (safeAnchorId str replaceUnderscores) = false /\
  all_chars (not_char "_") (safeAnchorId str true) = true.
Proof.
  unfold safeAnchorId, toLower.
  set (u := replaceAll (transform tolower str) "::" "").
  assert (Hu1 : all_chars (fun c => negb (isupper c)) u = true).
  { apply replaceAll_chars; [|reflexivity]. apply all_chars_transform, tolower_not_upper. }
  assert (Hu3 : occurs "::" u = false) by (now apply replaceAll_colons).
  set (v := replaceAll u " " "-").
  assert (Hv1 : all_chars (fun c => negb (isupper c)) v = true)
    by (now apply replaceAll_chars).
  assert (Hv2 : all_chars (not_char " ") v = true).
  { unfold v. rewrite replaceAll_char. now apply all_chars_transform, swap_not_source. }
  assert (Hv3 : occurs "::" v = false).
  { unfold v. rewrite replaceAll_char, occurs_colons_transform; [exact Hu3|].
    now apply swap_keeps_colon. }
  assert (Hw4 : all_chars (not_char "_") (replaceAll v "_" "-") = true).
  { rewrite replaceAll_char. now apply all_chars_transform, swap_not_source. }
  destruct replaceUnderscores; repeat split; try assumption.
  - now apply replaceAll_chars.
  - now apply replaceAll_chars.
  - rewrite replaceAll_char, occurs_colons_transform; [exact Hv3|].
    now apply swap_keeps_colon.
Qed.

(** A package name has no [::] in it, and a name without [::] is its own
    package name. *)
Theorem namespaceToPackage_shape (str : string) :
  occurs "::" (namespaceToPackage str) = false /\
  (occurs "::" str = false -> namespaceToPackage str = str).
Proof.
  unfold namespaceToPackage. split.
  - now apply replaceAll_colons.
  - apply replaceAll_without.
Qed.

Lemma lang_map_values (key mapped : string) :
  lang_map !! key = Some mapped -> mapped = "cpp" \/ mapped = "csharp".
Proof.
  unfold lang_map. intros H.
  repeat (apply lookup_insert_Some in H as [[_ <-]|[_ H]]; [tauto|]).
  apply lookup_singleton_Some in H as [_ <-]. tauto.
Qed.

(** [normalizeLanguage] does not tell capital from small letters, and what
    it returns is normalized: normalizing again changes nothing. *)
Theorem normalizeLanguage_idempotent (language : string) :
  normalizeLanguage (toLower language) = normalizeLanguage language /\
  normalizeLanguage (normalizeLanguage language) = normalizeLanguage language.
Proof.
  split.
  - unfold normalizeLanguage, toLower. now rewrite transform_tolower_idempotent.
  - destruct (lang_map !! transform tolower language) as [mapped|] eqn:E.
    + assert (H : normalizeLanguage language = mapped)
        by (unfold normalizeLanguage; now rewrite E).
      rewrite H. destruct (lang_map_values _ _ E) as [-> | ->]; reflexivity.
    + assert (H : normalizeLanguage language = transform tolower language)
        by (unfold normalizeLanguage; now rewrite E).
      rewrite H. unfold normalizeLanguage.
      now rewrite transform_tolower_idempotent, E.
Qed.

(** ** Names [wikiSafeFileName] leaves alone *)

Lemma kept_not_space (c : ascii) : kept c = true -> swap " " "-" c = c.
Proof. destruct c as [[] [] [] [] [] [] [] []]; vm_compute; congruence. Qed.

Lemma kept_wikiChar (c : ascii) : kept c = true -> wikiChar c = String c "".
Proof. destruct c as [[] [] [] [] [] [] [] []]; vm_compute; congruence. Qed.

Lemma wikiChars_kept (str : string) : all_chars kept str = true -> wikiChars str = str.
Proof.
  induction str as [|c str IH]; simpl; [reflexivity|].
  intros H. apply andb_true_iff in H as [Hc Hs]. now rewrite (kept_wikiChar c Hc), IH.
Qed.

(** A name of at most 200 letters, digits, [_], [.], [+] and [-] that
    neither begins nor ends with a period is its own wiki file name. *)
Theorem wikiSafeFileName_fixed (str : string) :
  all_chars kept str = true ->
  starts_with_dot str = false ->
  ends_with_dot str = false ->
  (String.length str <= 200)%nat ->
  wikiSafeFileName str = str.
Proof.
  intros Hk Hs He Hl. unfold wikiSafeFileName.
  rewrite replaceAll_char, (transform_fixed kept _ str kept_not_space Hk).
  rewrite (wikiChars_kept str Hk).
  assert (Hd : dropLeadingDot str = str).
  { unfold dropLeadingDot. destruct str as [|c str]; [reflexivity|].
    simpl in Hs. now rewrite Hs. }
  rewrite Hd.
  assert (Ht : dropTrailingDot str = str).
  { unfold dropTrailingDot. unfold ends_with_dot in He.
    destruct (last_char str); [now rewrite He | reflexivity]. }
  rewrite Ht. unfold truncate200.
  destruct (200 <? String.length str)%nat eqn:E; [apply Nat.ltb_lt in E; lia | reflexivity].
Qed.

Lemma wikiSafeFileName_fixed_witness :
  all_chars kept "Report-2.final_v1+x.md" = true /\
  starts_with_dot "Report-2.final_v1+x.md" = false /\
  ends_with_dot "Report-2.final_v1+x.md" = false /\
  (String.length "Report-2.final_v1+x.md" <= 200)%nat /\
  wikiSafeFileName "Report-2.final_v1+x.md" = "Report-2.final_v1+x.md".
Proof.
  repeat (split; [first [reflexivity | simpl; lia]|]).
  apply (wikiSafeFileName_fixed "Report-2.final_v1+x.md");
    first [reflexivity | simpl; lia].
Defined.

(** Every wiki file name has at most 200 characters, each of them a
    letter, a digit or one of [_ . + - %]. *)
Theorem wikiSafeFileName_bounded (str : string) :
  (String.length (wikiSafeFileName str) <= 200)%nat /\
  all_chars permitted (wikiSafeFileName str) = true.
Proof. split; [apply wikiSafeFileName_length | apply wikiSafeFileName_permitted]. Qed.

(** ** [split] *)

Lemma length_substring (s : string) (n m : nat) :
  String.length (String.substring n m s) = Nat.min m (String.length s - n).
Proof.
  revert n m; induction s as [|c s IH]; intros [|n] [|m]; simpl; try reflexivity.
  - now rewrite IH, Nat.sub_0_r.
  - apply IH.
  - apply IH.
Qed.

Lemma strip_prefix_length (b a rest : string) :
  strip_prefix b a = Some rest -> String.length a = (String.length b + String.length rest)%nat.
Proof.
  revert a; induction b as [|y b IH]; intros a; simpl.
  - now intros [= ->].
  - destruct a as [|x a]; [discriminate|].
    destruct (ascii_eqb x y); [|discriminate].
    intros H. simpl. now rewrite (IH _ H).
Qed.

Lemma find_go_bounds (rest delim : string) (i p : nat) :
  find_go rest delim i = Some p ->
  (i <= p /\ p + String.length delim <= i + String.length rest)%nat.
Proof.
  revert i; induction rest as [|c rest IH]; intros i; simpl.
  - destruct (strip_prefix delim "") eqn:E; [|discriminate].
    intros [= <-]. apply strip_prefix_length in E. simpl in E. lia.
  - destruct (strip_prefix delim (String c rest)) eqn:E.
    + intros [= <-]. apply strip_prefix_length in E. simpl in E. lia.
    + intros H. apply IH in H. lia.
Qed.

(** [find] answers with an index at or behind [pos] at which the whole of
    [delim] still fits into the text. *)
Lemma string_find_bounds (str delim : string) (pos p : nat) :
  string_find str delim pos = Some p ->
  (pos <= p /\ p + String.length delim <= String.length str)%nat.
Proof.
  unfold string_find. destruct (String.length str <? pos)%nat eqn:E; [discriminate|].
  apply Nat.ltb_ge in E. intros H. apply find_go_bounds in H.
  rewrite length_substring in H. lia.
Qed.

Lemma split_loop_ends (str delim : string) :
  (0 < String.length delim)%nat ->
  forall (rounds : nat) (pos : option nat) (last : nat) (tokens : list string),
    (forall p, pos = Some p ->
               (p + String.length delim <= String.length str /\
                String.length str - p < rounds)%nat) ->
    exists r, split_loop rounds str delim pos last tokens = Some r.
Proof.
  intros Hd. induction rounds as [|rounds IH]; intros pos last tokens Hp;
    destruct pos as [p|]; simpl; eauto.
  - destruct (Hp p eq_refl). lia.
  - destruct (Hp p eq_refl) as [Hfit Hleft].
    apply IH. intros p' Hfind. apply string_find_bounds in Hfind. lia.
Qed.

Lemma split_loop_extends (str delim : string) (rounds : nat) (pos : option nat) (last : nat)
    (tokens result : list string) (last' : nat) :
  split_loop rounds str delim pos last tokens = Some (result, last') ->
  exists more, result = (tokens ++ more)%list.
Proof.
  revert pos last tokens; induction rounds as [|rounds IH]; intros pos last tokens;
    destruct pos as [p|]; simpl; try discriminate.
  - intros [= <- <-]. exists []. now rewrite app_nil_r.
  - intros H. apply IH in H as [more ->]. eexists. now rewrite <- app_assoc.
  - intros [= <- <-]. exists []. now rewrite app_nil_r.
Qed.

(** With a delimiter that is not empty, [split] comes to an end. *)
Lemma split_ends (str delim : string) :
  (0 < String.length delim)%nat -> exists tokens, split str delim = Some tokens.
Proof.
  intros Hd. unfold split.
  destruct (split_loop_ends str delim Hd (S (String.length str))
              (string_find str delim 0) 0 []) as [[tokens last] ->].
  - intros p Hfind. apply string_find_bounds in Hfind. lia.
  - destruct (last <? String.length str)%nat; eauto.
Qed.

(** A text without the delimiter is the only token, and the empty text
    has no token at all. *)
Theorem split_without_delimiter (str delim : string) :
  occurs delim str = false ->
  split str delim = Some (if string_empty str then [] else [str]).
Proof.
  unfold occurs, split, string_find. intros H.
  replace (String.length str - 0)%nat with (String.length str) by lia.
  replace (String.length str <? 0)%nat with false by (symmetry; apply Nat.ltb_ge; lia).
  rewrite substring_all.
  destruct (find_go str delim 0); [discriminate|].
  destruct str as [|c str]; [reflexivity|].
  cbn [split_loop string_empty].
  replace (0 <? String.length (String c str))%nat with true
    by (symmetry; apply Nat.ltb_lt; simpl; lia).
  replace (String.length (String c str) - 0)%nat with (String.length (String c str)) by lia.
  now rewrite substring_all.
Qed.

Lemma split_without_delimiter_witness :
  occurs "::" "Engine" = false /\ split "Engine" "::" = Some ["Engine"].
Proof.
  split; [reflexivity|]. apply (split_without_delimiter "Engine" "::"). reflexivity.
Defined.

(** The first token is the text in front of the first delimiter.  The
    second token starts behind that delimiter, but [substr] is given the
    index of the next delimiter for a length: the token is longer than the
    text between the two delimiters. *)
Theorem split_second_token_overruns (str delim : string) (p1 p2 : nat) :
  (0 < String.length delim)%nat ->
  string_find str delim 0 = Some p1 ->
  string_find str delim (p1 + String.length delim) = Some p2 ->
  exists rest,
    split str delim
    = Some (String.substring 0 p1 str
            :: String.substring (p1 + String.length delim) p2 str :: rest) /\
    (p2 - (p1 + String.length delim)
     < String.length (String.substring (p1 + String.length delim) p2 str))%nat.
Proof.
  intros Hd H1 H2.
  pose proof (string_find_bounds _ _ _ _ H1) as B1.
  pose proof (string_find_bounds _ _ _ _ H2) as B2.
  destruct (split_ends str delim Hd) as [tokens Hs].
  assert (Hpre : exists rest, tokens = String.substring 0 p1 str
            :: String.substring (p1 + String.length delim) p2 str :: rest).
  { unfold split in Hs. rewrite H1 in Hs. cbn [split_loop] in Hs. rewrite H2 in Hs.
    destruct (String.length str) as [|n] eqn:El; [lia|].
    cbn [split_loop app] in Hs.
    destruct (split_loop n str delim _ _ _) as [[result last]|] eqn:E; [|discriminate].
    apply split_loop_extends in E as [more ->].
    destruct (last <? S n)%nat; injection Hs as <-; simpl; eauto. }
  destruct Hpre as [rest ->]. exists rest. split; [exact Hs|].
  rewrite length_substring. lia.
Qed.

Lemma split_second_token_overruns_witness :
  (0 < String.length ",")%nat /\
  string_find "a,b,c" "," 0 = Some 1%nat /\
  string_find "a,b,c" "," (1 + String.length ",") = Some 3%nat /\
  exists rest,
    split "a,b,c" ","
    = Some (String.substring 0 1 "a,b,c"
            :: String.substring (1 + String.length ",") 3 "a,b,c" :: rest) /\
    (3 - (1 + String.length ",")
     < String.length (String.substring (1 + String.length ",") 3 "a,b,c"))%nat.
Proof.
  split; [simpl; lia|]. split; [reflexivity|]. split; [reflexivity|].
  apply (split_second_token_overruns "a,b,c" "," 1 3); [simpl; lia | reflexivity | reflexivity].
Defined.

Lemma split_loop_stuck (str : string) (rounds p last : nat) (tokens : list string) :
  (p <= String.length str)%nat ->
  split_loop rounds str "" (Some p) last tokens = None.
Proof.
  intros Hp. revert last tokens; induction rounds as [|rounds IH]; intros last tokens;
    [reflexivity|].
  cbn [split_loop String.length].
  replace (string_find str "" (p + 0)) with (Some p); [apply IH|].
  unfold string_find. rewrite Nat.add_0_r.
  replace (String.length str <? p)%nat with false by (symmetry; apply Nat.ltb_ge; lia).
  destruct (String.substring p (String.length str - p) str); reflexivity.
Qed.

(** With an empty delimiter every round finds the delimiter where it
    stands, and [split] does not come to an end; with any other delimiter
    it does. *)
Theorem split_terminates (str delim : string) :
  ((0 < String.length delim)%nat -> exists tokens, split str delim = Some tokens) /\
  split str "" = None.
Proof.
  split; [apply split_ends|].
  unfold split.
  replace (string_find str "" 0) with (Some 0%nat).
  - rewrite split_loop_stuck; [reflexivity | lia].
  - unfold string_find. simpl (_ <? 0)%nat.
    destruct (String.substring 0 (String.length str - 0) str); reflexivity.
Qed.

(** * Further properties of [Generator] *)

(** ** The resolver *)

Section ResolverMore.

Variable env : Env.

(** The loop stops at the first suffix whose name is free. *)
Lemma probe_least (fuel : nat) (m : gmap string string) (node : Node)
    (baseName : string) (suffix : Z) (w : string) :
  Generator.probe env fuel m node baseName suffix = Ok w ->
  exists k, (suffix <= k)%Z /\ w = baseName ++ "-" ++ to_string k /\
            forall j, (suffix <= j < k)%Z ->
                      Generator.isDuplicate env m (baseName ++ "-" ++ to_string j) node = true.
Proof.
  revert suffix; induction fuel as [|fuel IH]; intros suffix;
    cbn [Generator.probe]; [discriminate|].
  destruct (INT_MAX <=? suffix)%Z; [discriminate|].
  destruct (Generator.isDuplicate env m (baseName ++ "-" ++ to_string suffix) node) eqn:E.
  - intros H. destruct (IH _ H) as (k & Hk & -> & Hall).
    exists k. split; [lia|]. split; [reflexivity|].
    intros j Hj. destruct (decide (j = suffix)) as [->|Hne]; [exact E | apply Hall; lia].
  - intros [= <-]. exists suffix. split; [lia|]. split; [reflexivity|]. intros j Hj. lia.
Qed.

(** The name a node gets is its candidate, or, when the candidate is taken
    in the node's category, the candidate with the least suffix [-k],
    [k >= 1], that is not taken there. *)
Theorem uniqueName_least_suffix (m : gmap string string) (node : Node) (w : string) :
  Generator.uniqueName env m node = Ok w ->
  (w = Generator.candidate node /\
   Generator.isDuplicate env m (Generator.candidate node) node = false) \/
  (exists k, (1 <= k)%Z /\ w = Generator.candidate node ++ "-" ++ to_string k /\
             Generator.isDuplicate env m (Generator.candidate node) node = true /\
             Generator.isDuplicate env m w node = false /\
             forall j, (1 <= j < k)%Z ->
               Generator.isDuplicate env m (Generator.candidate node ++ "-" ++ to_string j) node
               = true).
Proof.
  unfold Generator.uniqueName.
  destruct (Generator.isDuplicate env m (Generator.candidate node) node) eqn:E.
  - intros H. right. pose proof (probe_free env _ _ _ _ _ _ H) as [Hfree _].
    destruct (probe_least _ _ _ _ _ _ H) as (k & Hk & -> & Hall).
    exists k. repeat split; try assumption; reflexivity.
  - intros [= <-]. left. split; reflexivity.
Qed.

(** The resolver returns a name for every node as long as the naming
    record has fewer than [INT_MAX - 1] entries: the suffix loop ends. *)
Theorem getWikiFileName_returns (node : Node) (st : State) :
  (Z.of_nat (size (refidToWikiName st)) + 2 <= INT_MAX)%Z ->
  exists w st', Generator.getWikiFileName env node st = Ok (w, st').
Proof. apply getWikiFileName_total. Qed.

Lemma getWikiFileName_grows (node : Node) (st st' : State) (w : string) :
  registered env node = true ->
  Generator.getWikiFileName env node st = Ok (w, st') ->
  grows env st st'.
Proof.
  intros Hreg H. split; [|split].
  - intros Hu. eapply unique_names_step; eassumption.
  - destruct (getWikiFileName_cases env _ _ _ _ H) as [[_ ->]|(Hn & _ & ->)]; [done|].
    now apply insert_subseteq.
  - unfold mirrored, Generator.getWikiFileName in *.
    destruct (refidToWikiName st !! getRefid node) as [w0|] eqn:E.
    + injection H as <- <-. simpl. intros Hm.
      rewrite insert_id; [exact Hm|]. eapply lookup_weaken; eassumption.
    + destruct (Generator.uniqueName env (refidToWikiName st) node); try discriminate.
      injection H as <- <-. simpl. intros Hm. now apply insert_mono.
Qed.

Lemma getWikiFileName_mirrors (node : Node) (st st' : State) (w : string) :
  Generator.getWikiFileName env node st = Ok (w, st') ->
  mirrored st -> mirrored st' /\ g_refidToFilename st' !! getRefid node = Some w.
Proof.
  unfold mirrored, Generator.getWikiFileName.
  destruct (refidToWikiName st !! getRefid node) as [w0|] eqn:E.
  - intros [= <- <-] Hm. simpl. split; [|apply lookup_insert_eq].
    rewrite insert_id; [exact Hm|]. eapply lookup_weaken; eassumption.
  - destruct (Generator.uniqueName env (refidToWikiName st) node); try discriminate.
    intros [= <- <-] Hm. simpl. split; [now apply insert_mono | apply lookup_insert_eq].
Qed.

Lemma resolveAll_mirrors (nodes : list Node) (st st' : State) (names : list string) :
  resolveAll env nodes st = Ok (names, st') -> mirrored st -> mirrored st'.
Proof.
  revert st names; induction nodes as [|node nodes IH]; intros st names; simpl.
  - now intros [= _ <-].
  - unfold mbind, M_bind, bind.
    destruct (Generator.getWikiFileName env node st) as [[w st1]| |] eqn:E1; try discriminate.
    destruct (resolveAll env nodes st1) as [[ns st2]| |] eqn:E2; try discriminate.
    intros [= _ <-] Hm. eapply IH; [exact E2|].
    now destruct (getWikiFileName_mirrors _ _ _ _ E1 Hm).
Qed.

(** Each node of a resolved list has its name in the record at the end. *)
Lemma resolveAll_covers (nodes : list Node) (st st' : State) (names : list string) :
  resolveAll env nodes st = Ok (names, st') ->
  Forall2 (fun node w => refidToWikiName st' !! getRefid node = Some w) nodes names.
Proof.
  revert st names; induction nodes as [|node nodes IH]; intros st names; simpl.
  - intros [= <- _]. constructor.
  - unfold mbind, M_bind, bind.
    destruct (Generator.getWikiFileName env node st) as [[w st1]| |] eqn:E1; try discriminate.
    destruct (resolveAll env nodes st1) as [[ns st2]| |] eqn:E2; try discriminate.
    intros [= <- <-]. constructor; [|eapply IH; exact E2].
    eapply resolveAll_keeps; [exact E2|]. eapply getWikiFileName_stored. exact E1.
Qed.

(** The global map follows the member map: if it holds every entry of the
    member map before a run of resolutions, it does so after it, and it
    does so after the constructor whatever it held before. *)
Theorem global_map_mirrors (nodes : list Node) (names : list string) (st st' st0 st1 : State) :
  (resolveAll env nodes st = Ok (names, st') -> mirrored st -> mirrored st') /\
  (useWikiNamingConventions (env_config env) = true ->
   Generator.construct env st0 = Ok (tt, st1) -> mirrored st1).
Proof.
  split; [apply resolveAll_mirrors|].
  intros Hw. unfold Generator.construct. rewrite Hw.
  unfold mbind, M_bind, bind.
  destruct (Generator.buildWikiNameMapping env _ _ _ st0) as [[[] st2]| |]; try discriminate.
  unfold Generator.copy_to_global. intros [= <-]. unfold mirrored. simpl.
  apply map_union_subseteq_l.
Qed.

(** The pre-pass pays no attention to its two filters, and when it returns
    every node below the parent has a name in the record. *)
Theorem buildWikiNameMapping_covers (parent : Node) (filter skip filter' skip' : Filter)
    (st st' : State) :
  Generator.buildWikiNameMapping env parent filter skip st
    = Generator.buildWikiNameMapping env parent filter' skip' st /\
  (Generator.buildWikiNameMapping env parent filter skip st = Ok (tt, st') ->
   forall node, node ∈ descendants parent ->
                is_Some (refidToWikiName st' !! getRefid node)).
Proof.
  split.
  - pose proof (buildWikiNameMapping_resolveAll env filter skip parent st) as H1.
    pose proof (buildWikiNameMapping_resolveAll env filter' skip' parent st) as H2.
    rewrite <- H2 in H1.
    destruct (Generator.buildWikiNameMapping env parent filter skip st) as [[[] s1]| |];
      destruct (Generator.buildWikiNameMapping env parent filter' skip' st) as [[[] s2]| |];
      simpl in H1; congruence.
  - intros Hrun node Hin.
    pose proof (buildWikiNameMapping_resolveAll env filter skip parent st) as H.
    rewrite Hrun in H. simpl in H.
    destruct (resolveAll env (descendants parent) st) as [[names s1]| |] eqn:E;
      simpl in H; try discriminate.
    injection H as ->.
    pose proof (resolveAll_covers _ _ _ _ E) as Hall.
    apply list_elem_of_lookup in Hin as [i Hi].
    destruct (Forall2_lookup_l _ _ _ _ _ Hall Hi) as (w & _ & Hw). eauto.
Qed.

End ResolverMore.

Lemma getWikiFileName_returns_witness :
  (Z.of_nat (size (refidToWikiName initial)) + 2 <= INT_MAX)%Z /\
  exists w st', Generator.getWikiFileName reports_env report1 initial = Ok (w, st').
Proof.
  assert (H : (Z.of_nat (size (refidToWikiName initial)) + 2 <= INT_MAX)%Z)
    by (vm_compute; discriminate).
  split; [exact H|]. exact (getWikiFileName_returns reports_env report1 initial H).
Defined.

Lemma uniqueName_least_suffix_witness :
  let m : gmap string string := {[ "report_8md" := "Report.md" ]} in
  Generator.uniqueName reports_env m report2 = Ok "Report.md-1" /\
  ((("Report.md-1" : string) = Generator.candidate report2 /\
    Generator.isDuplicate reports_env m (Generator.candidate report2) report2 = false) \/
   (exists k, (1 <= k)%Z /\ "Report.md-1" = Generator.candidate report2 ++ "-" ++ to_string k /\
              Generator.isDuplicate reports_env m (Generator.candidate report2) report2 = true /\
              Generator.isDuplicate reports_env m "Report.md-1" report2 = false /\
              forall j, (1 <= j < k)%Z ->
                Generator.isDuplicate reports_env m
                  (Generator.candidate report2 ++ "-" ++ to_string j) report2 = true)).
Proof.
  intros m.
  assert (H : Generator.uniqueName reports_env m report2 = Ok "Report.md-1")
    by (vm_compute; reflexivity).
  split; [exact H|]. exact (uniqueName_least_suffix reports_env m report2 "Report.md-1" H).
Defined.

(** ** What the walkers do to the state *)

Lemma summaryRecursive_children (env : Env) (node : Node) (filter skip : Filter)
    (indent : nat) (folderName : string) (ss : string) (st : State) :
  Generator.summaryRecursive env ss indent folderName node filter skip st
  = summaryChildren env ss indent folderName (getChildren node) filter skip st.
Proof.
  destruct node as [? ? ? ? ? ? ? children]. simpl.
  revert ss st; induction children as [|child rest IH]; intros ss st; simpl; [reflexivity|].
  destruct (Generator.isMainPage env child); [apply IH|].
  destruct (decide (getKind child ∈ filter)); [|apply IH].
  unfold mbind, M_bind, bind.
  match goal with |- context [match ?x st with _ => _ end] => destruct (x st) as [[ss1 st1]| |] end;
    try reflexivity.
  destruct (Generator.summaryRecursive env ss1 indent folderName child filter skip st1)
    as [[ss2 st2]| |]; try reflexivity.
  apply IH.
Qed.

Section WalkerRelation.

Variable env : Env.

(** A relation between the state before and the state after, kept by
    doing nothing, by doing two things in a row, by writing a file, and by
    naming any of the nodes that satisfy [named]. *)
Variable R : State -> State -> Prop.
Variable named : Node -> Prop.

Hypothesis R_refl : forall st, R st st.
Hypothesis R_trans : forall st1 st2 st3, R st1 st2 -> R st2 st3 -> R st1 st3.
Hypothesis R_emit : forall ev st st', emit ev st = Ok (tt, st') -> R st st'.
Hypothesis R_name : forall node st w st',
  named node -> Generator.fileName env node st = Ok (w, st') -> R st st'.

Lemma printChild_related (child : Node) (st st' : State) :
  named child -> Generator.printChild env child st = Ok (tt, st') -> R st st'.
Proof.
  intros Hn. unfold Generator.printChild, mbind, M_bind, bind.
  destruct (Generator.fileName env child st) as [[filename st1]| |] eqn:F; try discriminate.
  unfold Generator.lift. destruct (Generator.kindToTemplateName env (getKind child));
    try discriminate.
  unfold Generator.render. destruct (render_error _ _ _ _); [discriminate|].
  intros H. eapply R_trans; [eapply R_name; eassumption | eapply R_emit; exact H].
Qed.

Lemma jsonChild_related (child : Node) (st st' : State) :
  named child -> Generator.jsonChild env child st = Ok (tt, st') -> R st st'.
Proof.
  intros Hn. unfold Generator.jsonChild, mbind, M_bind, bind.
  destruct (Generator.fileName env child st) as [[filename st1]| |] eqn:F; try discriminate.
  destruct (opens_for_writing _ _); [|discriminate].
  intros H. eapply R_trans; [eapply R_name; eassumption | eapply R_emit; exact H].
Qed.

Lemma printRecursively_related (filter skip : Filter) (parent : Node) (st st' : State) :
  Forall named (visited parent filter) ->
  Generator.printRecursively env parent filter skip st = Ok (tt, st') -> R st st'.
Proof.
  revert st st'. induction parent as [parent IH] using Node_nested_ind. intros st st'.
  rewrite printRecursively_children.
  rewrite visited_children.
  revert st st'. induction IH as [|child rest Hchild _ IHrest]; intros st st' Hall; simpl.
  - intros [= <-]. apply R_refl.
  - simpl in Hall. unfold mbind, M_bind, bind, mret, M_ret, ret.
    destruct (decide (getKind child ∈ filter)) as [Hin|Hout]; [|now apply IHrest].
    apply Forall_app in Hall as [Hhere Hrest]. apply Forall_cons in Hhere as [Hc Hbelow].
    destruct (bool_decide (getKind child ∉ skip) && Generator.shouldInclude env child).
    + destruct (Generator.printChild env child st) as [[[] st1]| |] eqn:P; try discriminate.
      destruct (Generator.printRecursively env child filter skip st1) as [[[] st2]| |] eqn:Q;
        try discriminate.
      intros H. eapply R_trans; [eapply printChild_related; eassumption|].
      eapply R_trans; [eapply Hchild; eassumption | now apply IHrest].
    + destruct (Generator.printRecursively env child filter skip st) as [[[] st2]| |] eqn:Q;
        try discriminate.
      intros H. eapply R_trans; [eapply Hchild; eassumption | now apply IHrest].
Qed.

Lemma jsonRecursively_related (filter skip : Filter) (parent : Node) (st st' : State) :
  Forall named (visited parent filter) ->
  Generator.jsonRecursively env parent filter skip st = Ok (tt, st') -> R st st'.
Proof.
  revert st st'. induction parent as [parent IH] using Node_nested_ind. intros st st'.
  rewrite jsonRecursively_children.
  rewrite visited_children.
  revert st st'. induction IH as [|child rest Hchild _ IHrest]; intros st st' Hall; simpl.
  - intros [= <-]. apply R_refl.
  - simpl in Hall. unfold mbind, M_bind, bind, mret, M_ret, ret.
    destruct (decide (getKind child ∈ filter)) as [Hin|Hout]; [|now apply IHrest].
    apply Forall_app in Hall as [Hhere Hrest]. apply Forall_cons in Hhere as [Hc Hbelow].
    destruct (bool_decide (getKind child ∉ skip) && Generator.shouldInclude env child).
    + destruct (Generator.jsonChild env child st) as [[[] st1]| |] eqn:P; try discriminate.
      destruct (Generator.jsonRecursively env child filter skip st1) as [[[] st2]| |] eqn:Q;
        try discriminate.
      intros H. eapply R_trans; [eapply jsonChild_related; eassumption|].
      eapply R_trans; [eapply Hchild; eassumption | now apply IHrest].
    + destruct (Generator.jsonRecursively env child filter skip st) as [[[] st2]| |] eqn:Q;
        try discriminate.
      intros H. eapply R_trans; [eapply Hchild; eassumption | now apply IHrest].
Qed.

Lemma summaryRecursive_related (filter skip : Filter) (indent : nat) (folderName : string)
    (parent : Node) (ss ss' : string) (st st' : State) :
  Forall named (visited parent filter) ->
  Generator.summaryRecursive env ss indent folderName parent filter skip st = Ok (ss', st') ->
  R st st'.
Proof.
  revert ss ss' st st'. induction parent as [parent IH] using Node_nested_ind.
  intros ss ss' st st'.
  rewrite summaryRecursive_children.
  rewrite visited_children.
  revert ss ss' st st'.
  induction IH as [|child rest Hchild _ IHrest]; intros ss ss' st st' Hall; simpl.
  - intros [= _ <-]. apply R_refl.
  - simpl in Hall.
    destruct (decide (getKind child ∈ filter)) as [Hin|Hout].
    2: { destruct (Generator.isMainPage env child); now apply IHrest. }
    apply Forall_app in Hall as [Hhere Hrest]. apply Forall_cons in Hhere as [Hc Hbelow].
    destruct (Generator.isMainPage env child); [now apply IHrest|].
    unfold mbind, M_bind, bind, mret, M_ret, ret.
    destruct (bool_decide (getKind child ∉ skip) && Generator.shouldInclude env child).
    + destruct (Generator.fileName env child st) as [[filename st1]| |] eqn:F; try discriminate.
      destruct (Generator.summaryRecursive env _ indent folderName child filter skip st1)
        as [[ss2 st2]| |] eqn:Q; try discriminate.
      intros H. eapply R_trans; [eapply R_name; eassumption|].
      eapply R_trans; [eapply Hchild; eassumption | eapply IHrest; eassumption].
    + destruct (Generator.summaryRecursive env ss indent folderName child filter skip st)
        as [[ss2 st2]| |] eqn:Q; try discriminate.
      intros H. eapply R_trans; [eapply Hchild; eassumption | eapply IHrest; eassumption].
Qed.

End WalkerRelation.

Section WalkerFacts.

Variable env : Env.

Lemma grows_refl (st : State) : grows env st st.
Proof. split; [|split]; auto. Qed.

Lemma grows_trans (st1 st2 st3 : State) :
  grows env st1 st2 -> grows env st2 st3 -> grows env st1 st3.
Proof.
  intros (U1 & S1 & M1) (U2 & S2 & M2). split; [|split]; auto.
  etrans; eassumption.
Qed.

Lemma grows_emit (ev : Event) (st st' : State) : emit ev st = Ok (tt, st') -> grows env st st'.
Proof. unfold emit. intros [= <-]. split; [|split]; auto. Qed.

Lemma grows_fileName (node : Node) (st : State) (w : string) (st' : State) :
  registered env node = true ->
  Generator.fileName env node st = Ok (w, st') -> grows env st st'.
Proof.
  intros Hreg. unfold Generator.fileName.
  destruct (useWikiNamingConventions (env_config env)).
  - now apply getWikiFileName_grows.
  - intros [= _ <-]. apply grows_refl.
Qed.

Lemma same_names_refl (st : State) : same_names st st.
Proof. split; reflexivity. Qed.

Lemma same_names_trans (st1 st2 st3 : State) :
  same_names st1 st2 -> same_names st2 st3 -> same_names st1 st3.
Proof. intros [A1 B1] [A2 B2]. split; congruence. Qed.

Lemma same_names_emit (ev : Event) (st st' : State) :
  emit ev st = Ok (tt, st') -> same_names st st'.
Proof. unfold emit. intros [= <-]. split; reflexivity. Qed.

Lemma same_names_fileName (node : Node) (st : State) (w : string) (st' : State) :
  useWikiNamingConventions (env_config env) = false ->
  True -> Generator.fileName env node st = Ok (w, st') -> same_names st st'.
Proof.
  intros Hw _. unfold Generator.fileName. rewrite Hw. intros [= _ <-]. apply same_names_refl.
Qed.

Lemma Forall_registered (nodes : list Node) :
  forallb (registered env) nodes = true -> Forall (fun node => registered env node = true) nodes.
Proof. intros H. apply Forall_forall. intros x Hx. eapply forallb_forall; [exact H|].
  now apply list_elem_of_In. Qed.

(** The three walkers keep the naming record in order: when every node
    they reach is known to [doxygen.find], a record without a clash inside
    a category is still one after the walk, and no entry is lost or
    changed on the way. *)
Theorem walkers_keep_naming (parent : Node) (filter skip : Filter) (indent : nat)
    (folderName ss ss' : string) (st st' : State) :
  forallb (registered env) (visited parent filter) = true ->
  unique_names env (refidToWikiName st) ->
  Generator.printRecursively env parent filter skip st = Ok (tt, st') \/
  Generator.jsonRecursively env parent filter skip st = Ok (tt, st') \/
  Generator.summaryRecursive env ss indent folderName parent filter skip st = Ok (ss', st') ->
  unique_names env (refidToWikiName st') /\
  refidToWikiName st ⊆ refidToWikiName st'.
Proof.
  intros Hreg Hu Hrun. apply Forall_registered in Hreg.
  assert (Hg : grows env st st').
  { destruct Hrun as [H|[H|H]].
    - eapply (printRecursively_related env (grows env) (fun node => registered env node = true));
        eauto using grows_refl, grows_trans, grows_emit, grows_fileName.
    - eapply (jsonRecursively_related env (grows env) (fun node => registered env node = true));
        eauto using grows_refl, grows_trans, grows_emit, grows_fileName.
    - eapply (summaryRecursive_related env (grows env) (fun node => registered env node = true));
        eauto using grows_refl, grows_trans, grows_emit, grows_fileName. }
  destruct Hg as (U & S & _). split; [now apply U | exact S].
Qed.

(** With wiki naming off the walkers do not touch the two naming maps. *)
Theorem walkers_leave_names_alone (parent : Node) (filter skip : Filter) (indent : nat)
    (folderName ss ss' : string) (st st' : State) :
  useWikiNamingConventions (env_config env) = false ->
  Generator.printRecursively env parent filter skip st = Ok (tt, st') \/
  Generator.jsonRecursively env parent filter skip st = Ok (tt, st') \/
  Generator.summaryRecursive env ss indent folderName parent filter skip st = Ok (ss', st') ->
  refidToWikiName st' = refidToWikiName st /\ g_refidToFilename st' = g_refidToFilename st.
Proof.
  intros Hw Hrun.
  assert (Hall : Forall (fun _ : Node => True) (visited parent filter))
    by (apply Forall_forall; auto).
  destruct Hrun as [H|[H|H]].
  - eapply (printRecursively_related env same_names (fun _ => True));
      eauto using same_names_refl, same_names_trans, same_names_emit, same_names_fileName.
  - eapply (jsonRecursively_related env same_names (fun _ => True));
      eauto using same_names_refl, same_names_trans, same_names_emit, same_names_fileName.
  - eapply (summaryRecursive_related env same_names (fun _ => True));
      eauto using same_names_refl, same_names_trans, same_names_emit, same_names_fileName.
Qed.

Lemma jsonChild_plain (child : Node) (st : State) :
  useWikiNamingConventions (env_config env) = false ->
  (forall path, opens_for_writing (env_fs env) path = true) ->
  Generator.jsonChild env child st
  = Ok (tt, mkState (refidToWikiName st) (g_refidToFilename st)
                    (output st ++ [json_file env child])).
Proof.
  intros Hw Hopen. unfold Generator.jsonChild, Generator.fileName, mbind, M_bind, bind.
  rewrite Hw. cbn [mret M_ret ret]. now rewrite Hopen.
Qed.

Lemma jsonChildren_plain (filter skip : Filter) (cs : list Node) :
  useWikiNamingConventions (env_config env) = false ->
  (forall path, opens_for_writing (env_fs env) path = true) ->
  Forall (fun node => forall st,
            Generator.jsonRecursively env node filter skip st
            = Ok (tt, mkState (refidToWikiName st) (g_refidToFilename st)
                              (output st ++ (json_file env <$> dispatched env node filter skip))))
         cs ->
  forall st,
    jsonChildren env cs filter skip st
    = Ok (tt, mkState (refidToWikiName st) (g_refidToFilename st)
                      (output st ++ (json_file env <$>
                         List.filter (fun node => bool_decide (getKind node ∉ skip)
                                                  && Generator.shouldInclude env node)
                                     (visitedOf cs filter)))).
Proof.
  intros Hw Hopen Hall. induction Hall as [|child rest Hchild _ IHrest]; intros st.
  - simpl. unfold mret, M_ret, ret. destruct st. simpl. now rewrite app_nil_r.
  - cbn [jsonChildren visitedOf]. unfold mbind, M_bind, bind, mret, M_ret, ret.
    destruct (decide (getKind child ∈ filter)) as [Hin|Hout].
    2: { simpl. apply IHrest. }
    rewrite List.filter_app. cbn [List.filter].
    destruct (bool_decide (getKind child ∉ skip) && Generator.shouldInclude env child).
    + rewrite (jsonChild_plain child st Hw Hopen), Hchild, IHrest. cbn [refidToWikiName
        g_refidToFilename output]. unfold dispatched.
      rewrite fmap_app, fmap_cons. do 2 f_equal. now rewrite <- !app_assoc.
    + rewrite Hchild, IHrest. cbn [refidToWikiName g_refidToFilename output].
      unfold dispatched. rewrite fmap_app. do 2 f_equal. now rewrite <- !app_assoc.
Qed.

(** With wiki naming off and every file opening, the JSON pass writes one
    file [outputDir/refid.json] for each node it reaches that is neither
    skipped nor excluded, parents before children and siblings in their
    order, and changes nothing else. *)
Theorem jsonRecursively_writes (filter skip : Filter) (parent : Node) (st : State) :
  useWikiNamingConventions (env_config env) = false ->
  (forall path, opens_for_writing (env_fs env) path = true) ->
  Generator.jsonRecursively env parent filter skip st
  = Ok (tt, mkState (refidToWikiName st) (g_refidToFilename st)
                    (output st ++ (json_file env <$> dispatched env parent filter skip))).
Proof.
  intros Hw Hopen. revert st. induction parent as [parent IH] using Node_nested_ind.
  intros st. rewrite jsonRecursively_children. unfold dispatched at 1.
  rewrite visited_children. now apply jsonChildren_plain.
Qed.

End WalkerFacts.

Lemma walkers_keep_naming_witness :
  forallb (registered reports_env) (visited reports_root {[ FILE; PAGE ]}) = true /\
  unique_names reports_env (refidToWikiName initial) /\
  exists st',
    Generator.jsonRecursively reports_env reports_root {[ FILE; PAGE ]} ∅ initial = Ok (tt, st') /\
    unique_names reports_env (refidToWikiName st') /\
    refidToWikiName initial ⊆ refidToWikiName st'.
Proof.
  split; [vm_compute; reflexivity|]. split; [apply unique_names_empty|].
  eexists. split; [vm_compute; reflexivity|].
  apply (walkers_keep_naming reports_env reports_root {[ FILE; PAGE ]} ∅ 0 "" "" "" initial).
  - vm_compute; reflexivity.
  - apply unique_names_empty.
  - right. left. vm_compute; reflexivity.
Defined.

Lemma walkers_leave_names_alone_witness :
  useWikiNamingConventions (env_config engine_env) = false /\
  exists st',
    Generator.printRecursively engine_env engine_root {[ CLASS; NAMESPACE ]} ∅ initial
      = Ok (tt, st') /\
    refidToWikiName st' = refidToWikiName initial /\
    g_refidToFilename st' = g_refidToFilename initial.
Proof.
  split; [reflexivity|].
  eexists. split; [vm_compute; reflexivity|].
  apply (walkers_leave_names_alone engine_env engine_root {[ CLASS; NAMESPACE ]} ∅ 0 "" "" ""
           initial); [reflexivity|].
  left. vm_compute; reflexivity.
Defined.

Lemma jsonRecursively_writes_witness :
  useWikiNamingConventions (env_config engine_env) = false /\
  (forall path, opens_for_writing (env_fs engine_env) path = true) /\
  Generator.jsonRecursively engine_env engine_root {[ CLASS; NAMESPACE ]} {[ NAMESPACE ]} initial
  = Ok (tt, mkState (refidToWikiName initial) (g_refidToFilename initial)
                    (output initial ++
                     (json_file engine_env
                        <$> dispatched engine_env engine_root {[ CLASS; NAMESPACE ]} {[ NAMESPACE ]}))).
Proof.
  split; [reflexivity|]. split; [reflexivity|].
  apply (jsonRecursively_writes engine_env {[ CLASS; NAMESPACE ]} {[ NAMESPACE ]} engine_root
           initial); reflexivity.
Defined.

(** ** The manifest *)

Section Manifest.

Variable env : Env.

Lemma manifestItems_children (node : Node) :
  Generator.manifestItems env node = manifestChildren env (getChildren node).
Proof.
  destruct node as [? ? ? ? ? ? ? children]. simpl.
  induction children as [|child rest IH]; [reflexivity|].
  cbn [manifestChildren]. rewrite <- IH. reflexivity.
Qed.

Lemma existsb_filter_nil {A} (f : A -> bool) (l : list A) :
  existsb f l = false <-> List.filter f l = [].
Proof.
  induction l as [|x l IH]; simpl; [tauto|].
  destruct (f x); simpl; [split; discriminate | exact IH].
Qed.

Lemma manifestItems_records (node : Node) :
  Generator.manifestItems env node
  = manifestRecord env <$> List.filter (Generator.shouldInclude env) (getChildren node).
Proof.
  induction node as [node IH] using Node_nested_ind.
  rewrite manifestItems_children.
  induction IH as [|child rest Hchild _ IHrest]; simpl; [reflexivity|].
  destruct (Generator.shouldInclude env child); [|exact IHrest].
  rewrite fmap_cons, IHrest. f_equal.
  unfold manifestRecord, Generator.manifestRecursively. cbv zeta. rewrite Hchild.
  destruct (List.filter (Generator.shouldInclude env) (getChildren child)) as [|c cs] eqn:Ef.
  - apply existsb_filter_nil in Ef. now rewrite Ef.
  - destruct (existsb (Generator.shouldInclude env) (getChildren child)) eqn:E;
      [reflexivity|].
    apply existsb_filter_nil in E. congruence.
Qed.

Lemma manifestEntry_children (child : Node) (value : Json) :
  json_get "children" (Generator.manifestEntry env child) = None /\
  json_get "children" (json_set "children" value (Generator.manifestEntry env child))
  = Some value.
Proof.
  unfold Generator.manifestEntry.
  destruct (decide (getKind child = MODULE)); split; reflexivity.
Qed.

(** The manifest has one record for each child that [shouldInclude]
    accepts, in the order of the tree; a child that is not accepted is
    left out with everything below it.  A record has the key [children]
    exactly when one of the node's own children is accepted, and the value
    is then the manifest of the node. *)
Theorem manifest_records (node child : Node) :
  Generator.manifestRecursively env node
  = JArray (manifestRecord env <$> List.filter (Generator.shouldInclude env) (getChildren node)) /\
  json_get "children" (manifestRecord env child)
  = if existsb (Generator.shouldInclude env) (getChildren child)
    then Some (Generator.manifestRecursively env child)
    else None.
Proof.
  split.
  - unfold Generator.manifestRecursively. now rewrite manifestItems_records.
  - unfold manifestRecord.
    destruct (existsb (Generator.shouldInclude env) (getChildren child)).
    + exact (proj2 (manifestEntry_children child _)).
    + exact (proj1 (manifestEntry_children child JNull)).
Qed.

End Manifest.

(** ** The index *)

Section Index.

Variable env : Env.

#[local] Instance name_le_total : Total Generator.name_le.
Proof.
  intros a b. unfold Generator.name_le, String.ltb.
  destruct (String.compare (getName (fst b)) (getName (fst a))) eqn:E; auto.
  right. now rewrite String.compare_antisym, E.
Qed.

Lemma insertByName_Permutation (entry : Node * list Json) (sorted : list (Node * list Json)) :
  Generator.insertByName entry sorted ≡ₚ entry :: sorted.
Proof.
  induction sorted as [|next rest IH]; simpl; [reflexivity|].
  destruct (decide (Generator.name_le entry next)); [reflexivity|].
  rewrite IH. apply Permutation_swap.
Qed.

Lemma sortByName_Permutation (entries : list (Node * list Json)) :
  Generator.sortByName entries ≡ₚ entries.
Proof.
  induction entries as [|entry rest IH]; simpl; [reflexivity|].
  now rewrite insertByName_Permutation, IH.
Qed.

Lemma Sorted_insertByName (entry : Node * list Json) (sorted : list (Node * list Json)) :
  Sorted Generator.name_le sorted -> Sorted Generator.name_le (Generator.insertByName entry sorted).
Proof.
  induction 1 as [|next rest Hs IH Hd]; simpl; [repeat constructor|].
  destruct (decide (Generator.name_le entry next)) as [Hle|Hnle].
  - constructor; [constructor; assumption | constructor; exact Hle].
  - constructor; [exact IH|].
    destruct (name_le_total entry next) as [?|Hle]; [contradiction|].
    destruct Hd as [|after rest' Hd]; simpl.
    + constructor. exact Hle.
    + destruct (decide (Generator.name_le entry after)); constructor; assumption.
Qed.

Lemma Sorted_sortByName (entries : list (Node * list Json)) :
  Sorted Generator.name_le (Generator.sortByName entries).
Proof.
  induction entries as [|entry rest IH]; simpl; [constructor|].
  now apply Sorted_insertByName.
Qed.

(** Entries with equal names keep their order: sorting a list whose names
    are already in order returns the list. *)
Lemma sortByName_sorted (entries : list (Node * list Json)) :
  Sorted Generator.name_le entries -> Generator.sortByName entries = entries.
Proof.
  induction 1 as [|entry rest Hs IH Hd]; simpl; [reflexivity|].
  rewrite IH. destruct Hd as [|next rest' Hle]; simpl; [reflexivity|].
  now rewrite decide_True.
Qed.

Lemma filter_paired {B} (P : Node -> bool) (F : Node -> B) (l : list Node) :
  List.filter (fun entry : Node * B => P (fst entry)) (List.map (fun c => (c, F c)) l)
  = List.map (fun c => (c, F c)) (List.filter P l).
Proof.
  induction l as [|c l IH]; simpl; [reflexivity|].
  destruct (P c); simpl; now rewrite IH.
Qed.

(** At every level the index holds one record for each child whose kind
    is in the filter and that [shouldInclude] accepts, the records in the
    order of the names, each made from the child and the index below it. *)
Theorem index_sorted_by_name (node : Node) (filter skip : Filter) :
  exists nodes : list Node,
    Generator.buildIndexRecursively env node filter skip
    = JArray ((fun child =>
                 Generator.indexRecord env (child, Generator.indexItems env child filter skip))
              <$> nodes) /\
    Sorted name_ordered nodes /\
    nodes ≡ₚ List.filter (indexed env filter) (getChildren node).
Proof.
  unfold Generator.buildIndexRecursively. rewrite indexItems_unfold.
  rewrite (filter_paired (indexed env filter)
             (fun child => Generator.indexItems env child filter skip)).
  set (chosen := List.filter (indexed env filter) (getChildren node)).
  set (pair := fun child => (child, Generator.indexItems env child filter skip)).
  set (sorted := Generator.sortByName (List.map pair chosen)).
  assert (Hperm : sorted ≡ₚ pair <$> chosen) by apply sortByName_Permutation.
  assert (Hshape : Forall (fun entry => entry = pair (fst entry)) sorted).
  { rewrite Hperm. apply Forall_fmap, Forall_forall. intros c _. reflexivity. }
  exists (fst <$> sorted). split; [|split].
  - f_equal. rewrite <- list_fmap_compose.
    apply Forall_fmap_ext_1. eapply Forall_impl; [exact Hshape|].
    intros entry He. simpl. now rewrite He at 1.
  - apply (Sorted_fmap _ Generator.name_le name_ordered); [auto|].
    apply Sorted_sortByName.
  - rewrite Hperm, <- list_fmap_compose. simpl.
    now rewrite list_fmap_id.
Qed.

End Index.

(** ** The summary beyond one class *)


Lemma compare_placeholder (after : string) :
  Generator.compare ("{{doxygen}}" ++ after) "{{doxygen}}" = true.
Proof. destruct after; reflexivity. Qed.

Lemma locate_reaches (target : string) :
  Generator.compare target "{{doxygen}}" = true ->
  (0 < String.length target)%nat ->
  forall (before : string) (i indent : nat),
    exists o, fst (Generator.locate (before ++ target) i indent) = Some o /\
              (i <= o <= i + String.length before)%nat.
Proof.
  intros Hc Hl. induction before as [|c before IH]; intros i indent.
  - destruct target as [|t target]; [simpl in Hl; lia|].
    change ("" ++ String t target) with (String t target).
    cbn [Generator.locate]. rewrite Hc. exists i. simpl. split; [reflexivity | lia].
  - change (String c before ++ target) with (String c (before ++ target)).
    cbn [Generator.locate].
    destruct (Generator.compare (String c (before ++ target)) "{{doxygen}}").
    + exists i. simpl. split; [reflexivity | lia].
    + destruct (IH (S i) (if ascii_eqb c " " then S indent else 0)) as (o & Ho & Hb).
      exists o. split; [exact Ho | simpl; lia].
Qed.

(** The scan of the template stops at the placeholder or before it, never
    behind it; and as the comparison ends with the shorter of its two
    texts, a template whose last character is [{] counts as holding the
    placeholder too. *)
Theorem locate_finds_placeholder (before after : string) (i indent : nat) :
  (exists o, fst (Generator.locate (before ++ "{{doxygen}}" ++ after) i indent) = Some o /\
             (i <= o <= i + String.length before)%nat) /\
  (exists o, fst (Generator.locate (before ++ "{") i indent) = Some o /\
             (i <= o <= i + String.length before)%nat).
Proof.
  split.
  - apply locate_reaches; [apply compare_placeholder|].
    rewrite length_append. simpl. lia.
  - apply locate_reaches; [reflexivity | simpl; lia].
Qed.

Section SummaryMore.

Variable env : Env.

(** With no section the generated block is empty, and taking the
    indentation off it is out of range as soon as a space stands in front
    of the placeholder: [summary] then ends in [std::out_of_range]. *)
Theorem summary_without_sections (inputFile outputFile tmpl : string) (st : State) :
  read_file (env_fs env) inputFile = Some tmpl ->
  opens_for_writing (env_fs env) outputFile = true ->
  (0 < snd (Generator.locate tmpl 0 0))%nat ->
  Generator.summary env inputFile outputFile [] st = Throw (EXCEPTION "std::out_of_range" []).
Proof.
  intros Hread Hopen Hind. unfold Generator.summary. rewrite Hread, Hopen.
  cbn [negb Generator.summarySections]. unfold mbind, M_bind, bind, mret, M_ret, ret.
  unfold substr_from.
  replace (String.length "" <? snd (Generator.locate tmpl 0 0))%nat with true
    by (symmetry; apply Nat.ltb_lt; simpl; lia).
  reflexivity.
Qed.


End SummaryMore.

Lemma summary_without_sections_witness :
  read_file (env_fs (summary_env false)) "SUMMARY.md.tmpl" = Some summary_template /\
  opens_for_writing (env_fs (summary_env false)) "SUMMARY.md" = true /\
  (0 < snd (Generator.locate summary_template 0 0))%nat /\
  Generator.summary (summary_env false) "SUMMARY.md.tmpl" "SUMMARY.md" [] initial
  = Throw (EXCEPTION "std::out_of_range" []).
Proof.
  assert (H : (0 < snd (Generator.locate summary_template 0 0))%nat) by (vm_compute; lia).
  split; [reflexivity|]. split; [reflexivity|]. split; [exact H|].
  apply (summary_without_sections (summary_env false) "SUMMARY.md.tmpl" "SUMMARY.md"
           summary_template initial); [reflexivity | reflexivity | exact H].
Defined.

